(** * Verification of the authentik web UI elements

    A shallow embedding of the element logic of
    - [ModalForm] / [ModalButton]          (forms in a native dialog),
    - [AKTimestamp]                        (elapsed-time display with refresh),
    - the [intersectionObserver] decorator (visibility tracking),
    - [ModelForm]                          (instance-bound forms),
    - [themeImage]                         (theme placeholder substitution),
    together with the properties the specification states about them.

    Browser objects are modelled by the part of their state the code reads
    and writes; calls into the browser or into sibling modules are recorded
    in an event trace, in program order. *)

From Stdlib Require Import List String Ascii Bool ZArith QArith Qabs Lia Arith.
Import ListNotations.

Set Implicit Arguments.

(** ** Promises

    A promise chain is run to completion on the single browser thread, so it
    is modelled as a state-passing computation that ends either resolved with
    a value or rejected with a reason. *)
Module Promise.

Inductive Settled (E A : Type) : Type :=
| Resolved (value : A)
| Rejected (reason : E).

Arguments Resolved {E A} value.
Arguments Rejected {E A} reason.

Definition Async (S E A : Type) : Type := S -> S * Settled E A.

Section Combinators.
Context {S E : Type}.

(** [Promise.resolve(a)] *)
Definition resolve {A} (a : A) : Async S E A := fun s => (s, Resolved a).

(** [throw e] inside an async function, or [Promise.reject(e)] *)
Definition reject {A} (e : E) : Async S E A := fun s => (s, Rejected e).

(** a statement executed for its effect on the element *)
Definition effect (f : S -> S) : Async S E unit := fun s => (f s, Resolved tt).

(** [p.then(f)]: [f] runs only when [p] resolves *)
Definition then_ {A B} (p : Async S E A) (f : A -> Async S E B) : Async S E B :=
  fun s => match p s with
           | (s1, Resolved a) => f a s1
           | (s1, Rejected e) => (s1, Rejected e)
           end.

(** [p.catch(g)]: [g] runs only when [p] rejects *)
Definition catch_ {A} (p : Async S E A) (g : E -> Async S E A) : Async S E A :=
  fun s => match p s with
           | (s1, Resolved a) => (s1, Resolved a)
           | (s1, Rejected e) => g e s1
           end.

(** [p.finally(h)]: [h] always runs, the settlement of [p] passes through
    (the handlers used here never throw) *)
Definition finally_ {A} (p : Async S E A) (h : S -> S) : Async S E A :=
  fun s => match p s with
           | (s1, r) => (h s1, r)
           end.
End Combinators.

End Promise.

Import Promise.

Declare Scope async_scope.
Delimit Scope async_scope with async.
Notation "x <- p ;; q" := (then_ p (fun x => q))
  (at level 61, p at next level, right associativity) : async_scope.
Notation "p ;; q" := (then_ p (fun _ => q))
  (at level 61, right associativity) : async_scope.

(** [a] occurs strictly before [b] in the trace [l]. *)
Definition precedes {A} (a b : A) (l : list A) : Prop :=
  exists l1 l2 l3, l = l1 ++ a :: l2 ++ b :: l3.

(** ** JavaScript values the elements inspect *)
Module JS.

(** A Number.  Every finite double is a rational, so [Finite] covers all
    finite numbers the code can receive; both zeros are the rational 0. *)
Inductive Number : Type :=
| NaN
| Infinity (negative : bool)
| Finite (q : Q).

(** [ToBoolean] on a Number: false for NaN, +0 and -0 *)
Definition number_truthy (n : Number) : bool :=
  match n with
  | NaN => false
  | Infinity _ => true
  | Finite q => negb (Qnum q =? 0)%Z
  end.

(** [ToBoolean] on a String: false for the empty string only *)
Definition string_truthy (s : string) : bool :=
  match s with
  | EmptyString => false
  | String _ _ => true
  end.

(** A time value: an integral number of milliseconds since the epoch, or NaN
    ([None]), the time value of an invalid Date. *)
Definition TimeValue : Type := option Z.

(** [TimeClip]: NaN when not finite or beyond 8.64e15 ms, else truncated
    toward zero *)
Definition TimeClip (n : Number) : TimeValue :=
  match n with
  | NaN => None
  | Infinity _ => None
  | Finite q =>
      let t := (Qnum q ÷ Zpos (Qden q))%Z in
      if (Qle_bool (Qabs q) (8640000000000000 # 1)) then Some t else None
  end.

(** Arithmetic and comparison on time values; a comparison with NaN is false. *)
Definition sub (a : TimeValue) (k : Z) : TimeValue := option_map (fun m => (m - k)%Z) a.
Definition add (a : TimeValue) (k : Z) : TimeValue := option_map (fun m => (m + k)%Z) a.

Definition geb (x : Z) (b : TimeValue) : bool :=
  match b with Some m => (m <=? x)%Z | None => false end.
Definition leb (x : Z) (b : TimeValue) : bool :=
  match b with Some m => (x <=? m)%Z | None => false end.
Definition ltb (x : Z) (b : TimeValue) : bool :=
  match b with Some m => (x <? m)%Z | None => false end.
Definition gtb (x : Z) (b : TimeValue) : bool :=
  match b with Some m => (m <? x)%Z | None => false end.

(** [a === k] for a time value and an integer literal *)
Definition strict_eqb (a : TimeValue) (k : Z) : bool :=
  match a with Some m => (m =? k)%Z | None => false end.

(** A Date object, by its time value. *)
Record Date : Type := mkDate { getTime : TimeValue }.

End JS.

(** ** ModalButton and ModalForm *)
Module ModalForm.

(** Reactive properties of the element.  [dialog] is [#dialogRef.value]:
    [None] while no dialog element is rendered, otherwise the dialog's own
    [open] flag. *)
Record Props : Type := mkProps {
  closeAfterSuccessfulSubmit : bool;
  loading : bool;
  locked : bool;
  dialog : option bool
}.

Inductive Event : Type :=
| ReportValidity
| Submit
| SetLoading (value : bool)
| SetLocked (value : bool)
| SetOpen (value : bool)
| DialogShowModal
| DialogClose
| FormReset
| DispatchEvent (type : string) (bubbles composed : bool).

Record State : Type := mkState {
  props : Props;
  trace : list Event
}.

Section Confirm.
(** rejection reasons of the form's submit promise ([unknown] in the source) *)
Variable Unknown : Type.
(** [EVENT_REFRESH] of [#common/constants] *)
Variable EVENT_REFRESH : string.
(** [msg] of [@lit/localize] *)
Variable msg : string -> string.

Inductive Thrown : Type :=
| JsError (message : string)
| Reason (r : Unknown).

(** A [Form] as [#confirm] uses it: the answer of [reportValidity()], and
    [submit()], which returns a promise that settles later; [submit] also
    gives what happened to the modal's properties while the promise was
    pending. *)
Record Form : Type := mkForm {
  reportValidity : bool;
  submit : Props -> Props * Settled Unknown unit
}.

Inductive Element : Type :=
| FormElement (form : Form)
| OtherElement.

Definition instanceofForm (e : Element) : option Form :=
  match e with
  | FormElement f => Some f
  | OtherElement => None
  end.

(** [elements.find((element) => element instanceof Form)] *)
Fixpoint findForm (elements : list Element) : option Form :=
  match elements with
  | [] => None
  | e :: rest =>
      match instanceofForm e with
      | Some f => Some f
      | None => findForm rest
      end
  end.

Definition log (e : Event) (s : State) : State :=
  mkState (props s) (trace s ++ [e]).

Definition set_loading (v : bool) (s : State) : State :=
  let p := props s in
  log (SetLoading v)
    (mkState (mkProps (closeAfterSuccessfulSubmit p) v (locked p) (dialog p)) (trace s)).

Definition set_locked (v : bool) (s : State) : State :=
  let p := props s in
  log (SetLocked v)
    (mkState (mkProps (closeAfterSuccessfulSubmit p) (loading p) v (dialog p)) (trace s)).

(** [get open()]: [this.#dialogRef.value?.open ?? false] *)
Definition open (p : Props) : bool :=
  match dialog p with
  | Some o => o
  | None => false
  end.

(** [set open(value)] *)
Definition set_open (v : bool) (s : State) : State :=
  let s := log (SetOpen v) s in
  let p := props s in
  match dialog p with
  | None => s
  | Some _ =>
      if v then
        log DialogShowModal
          (mkState (mkProps (closeAfterSuccessfulSubmit p) (loading p) (locked p) (Some true))
                   (trace s))
      else
        log DialogClose
          (mkState (mkProps (closeAfterSuccessfulSubmit p) (loading p) (locked p) (Some false))
                   (trace s))
  end.

(** [form.submit(new SubmitEvent(...))], followed until the promise settles *)
Definition call_submit (form : Form) : Async State Thrown unit :=
  fun s =>
    let s := log Submit s in
    match submit form (props s) with
    | (p', Resolved _) => (mkState p' (trace s), Resolved tt)
    | (p', Rejected r) => (mkState p' (trace s), Rejected (Reason r))
    end.

Definition call_reportValidity (form : Form) : Async State Thrown bool :=
  fun s => (log ReportValidity s, Resolved (reportValidity form)).

Local Open Scope async_scope.

(** the handler passed to [formPromise.then] *)
Definition on_submitted : Async State Thrown unit :=
  fun s =>
    ((if closeAfterSuccessfulSubmit (props s) then
        effect (set_open false) ;;
        effect (log FormReset) ;;
        effect (log (DispatchEvent EVENT_REFRESH true true))
      else resolve tt) ;;
     effect (set_loading false) ;;
     effect (set_locked false)) s.

(** the handler passed to [.catch] *)
Definition on_failed (error : Thrown) : Async State Thrown unit :=
  effect (set_loading false) ;;
  effect (set_locked false) ;;
  reject error.

(** [#confirm] *)
Definition confirm (slotted : list Element) : Async State Thrown unit :=
  match findForm slotted with
  | None => reject (JsError (msg "No form found within the default slot"))
  | Some form =>
      valid <- call_reportValidity form ;;
      if negb valid then
        effect (set_loading false) ;;
        effect (set_locked false) ;;
        resolve tt
      else
        effect (set_loading true) ;;
        effect (set_locked true) ;;
        catch_ (then_ (call_submit form) (fun _ => on_submitted)) on_failed
  end.

(** the properties [submit] is called under: both flags raised *)
Definition armed (p : Props) : Props :=
  mkProps (closeAfterSuccessfulSubmit p) true true (dialog p).

(** what [this.open = false] does to the dialog element, if there is one *)
Definition close_events (p : Props) : list Event :=
  match dialog p with
  | Some _ => [DialogClose]
  | None => []
  end.

(** the submission settled successfully with the modal asked to close *)
Definition refresh_due (slotted : list Element) (p : Props) : Prop :=
  exists form p',
    findForm slotted = Some form /\
    reportValidity form = true /\
    submit form (armed p) = (p', Resolved tt) /\
    closeAfterSuccessfulSubmit p' = true.

(** one click on the submit button, starting with an empty trace *)
Definition run_confirm (slotted : list Element) (p : Props) : State * Settled Thrown unit :=
  confirm slotted (mkState p []).

(** The ways a run can go: no form, invalid form, rejected submission,
    resolved submission with the modal kept open or closed. *)
Inductive RunCase (slotted : list Element) (p : Props) : Prop :=
| case_no_form :
    findForm slotted = None -> RunCase slotted p
| case_invalid form :
    findForm slotted = Some form -> reportValidity form = false -> RunCase slotted p
| case_rejected form p' r :
    findForm slotted = Some form -> reportValidity form = true ->
    submit form (armed p) = (p', Rejected r) -> RunCase slotted p
| case_kept_open form p' :
    findForm slotted = Some form -> reportValidity form = true ->
    submit form (armed p) = (p', Resolved tt) ->
    closeAfterSuccessfulSubmit p' = false -> RunCase slotted p
| case_closed form p' :
    findForm slotted = Some form -> reportValidity form = true ->
    submit form (armed p) = (p', Resolved tt) ->
    closeAfterSuccessfulSubmit p' = true -> RunCase slotted p.

(** a write to [loading] or [locked] *)
Definition is_flag_write (e : Event) : bool :=
  match e with
  | SetLoading _ | SetLocked _ => true
  | _ => false
  end.

End Confirm.

(** *** ModalButton's [show], [close] and backdrop listener; ModalForm's
    [#cancel] and [defaultSlotElements] *)

(** [show] *)
Definition show (s : State) : State := set_open true s.

(** [close(returnValue)]: [this.#dialogRef?.value?.close(returnValue)] *)
Definition close (s : State) : State :=
  let p := props s in
  match dialog p with
  | None => s
  | Some _ =>
      log DialogClose
        (mkState (mkProps (closeAfterSuccessfulSubmit p) (loading p) (locked p) (Some false))
                 (trace s))
  end.

(** [#backdropListener(event)]; [onDialogItself] is
    [event.target === event.currentTarget] *)
Definition backdropListener (onDialogItself : bool) (s : State) : State :=
  if negb (open (props s)) || negb onDialogItself then s
  else set_open false s.

(** [#cancel] *)
Definition cancel (s : State) : State := close s.

(** [defaultSlotElements()]: the slot's assigned elements, none while the
    slot is not rendered *)
Definition defaultSlotElements {E : Type} (defaultSlot : option (list E)) : list E :=
  match defaultSlot with
  | Some assigned => assigned
  | None => []
  end.

End ModalForm.

(** ** AKTimestamp *)
Module Timestamp.

(** what the [timestamp] setter accepts: [string | Date | number | null] *)
Inductive TimestampInput : Type :=
| InNull
| InString (s : string)
| InNumber (n : JS.Number)
| InDate (d : JS.Date).

(** the closure handed to [setInterval] *)
Inductive Callback : Type :=
| SecondTick (moment : JS.TimeValue)
| MinuteTick.

Record Timer : Type := mkTimer {
  handle : Z;
  callback : Callback;
  delay : Z
}.

(** [document.visibilityState] *)
Inductive VisibilityState : Type := DocVisible | DocHidden.

(** the part of the browser the element talks to *)
Record Browser : Type := mkBrowser {
  timers : list Timer;
  nextHandle : Z;
  visibilityState : VisibilityState;
  now : Z
}.

Record State : Type := mkState {
  timestamp : option JS.Date;
  visible : bool;
  elapsed : bool;
  datetime : bool;
  refresh : bool;
  interval : Z
}.

(** what [render] returns *)
Inductive Template : Type :=
| Span (role ariaLabel text : string)
| Time (datetimeAttr : string) (ariaDescribedby : option string)
       (elapsedPart datetimePart : option string).

(** [render] returns a template, or throws: [toISOString] of an invalid
    Date raises a RangeError *)
Inductive Rendered : Type :=
| Returns (t : Template)
| Throws.

(** a freshly constructed element *)
Definition initial : State := mkState None false true false false (-1).

Section Element.
(** [Date.parse], as a Number *)
Variable Date_parse : string -> JS.Number.
(** [formatElapsedTime] of [#common/temporal] *)
Variable formatElapsedTime : JS.Date -> string.
(** [Date.prototype.toISOString] and [toLocaleString] on a valid time value *)
Variable toISOString : Z -> string.
Variable toLocaleString : Z -> string.
(** [ifPresent] of [#elements/utils/attributes] *)
Variable ifPresent : bool -> string -> option string.

(** [ToBoolean(value)] *)
Definition truthy (value : TimestampInput) : bool :=
  match value with
  | InNull => false
  | InString s => JS.string_truthy s
  | InNumber n => JS.number_truthy n
  | InDate _ => true
  end.

(** [new Date(value)] for a value that is not a Date *)
Definition new_Date (value : TimestampInput) : JS.Date :=
  match value with
  | InString s => JS.mkDate (JS.TimeClip (Date_parse s))
  | InNumber n => JS.mkDate (JS.TimeClip n)
  | InNull => JS.mkDate (Some 0%Z)
  | InDate d => JS.mkDate (JS.getTime d)
  end.

(** [set timestamp(value)] *)
Definition set_timestamp (value : TimestampInput) (s : State) : State :=
  let stored :=
    if truthy value then
      Some (match value with
            | InDate d => d
            | _ => new_Date value
            end)
    else None in
  mkState stored (visible s) (elapsed s) (datetime s) (refresh s) (interval s).

Definition set_interval_field (h : Z) (s : State) : State :=
  mkState (timestamp s) (visible s) (elapsed s) (datetime s) (refresh s) h.

(** [clearInterval(handle)]: an unknown handle is ignored *)
Definition clearInterval (h : Z) (b : Browser) : Browser :=
  mkBrowser (filter (fun t => negb (handle t =? h)%Z) (timers b))
            (nextHandle b) (visibilityState b) (now b).

(** [self.setInterval(callback, delay)] *)
Definition setInterval (cb : Callback) (d : Z) (b : Browser) : Z * Browser :=
  (nextHandle b,
   mkBrowser (timers b ++ [mkTimer (nextHandle b) cb d])
             (nextHandle b + 1)%Z (visibilityState b) (now b)).

(** [stopInterval] *)
Definition stopInterval (s : State) (b : Browser) : Browser :=
  clearInterval (interval s) b.

Definition document_visible (b : Browser) : bool :=
  match visibilityState b with
  | DocVisible => true
  | DocHidden => false
  end.

(** [startInterval] *)
Definition startInterval (s : State) (b : Browser) : State * Browser :=
  let b := stopInterval s b in
  match timestamp s with
  | None => (s, b)
  | Some ts =>
      if negb (refresh s) || negb (document_visible b) || negb (visible s) then (s, b)
      else
        let moment := JS.getTime ts in
        let start := now b in
        if JS.geb start (JS.sub moment 60000) && JS.leb start (JS.add moment 60000) then
          let (h, b') := setInterval (SecondTick moment) 1000 b in
          (set_interval_field h s, b')
        else
          let (h, b') := setInterval MinuteTick (1000 * 60) b in
          (set_interval_field h s, b')
  end.

(** the timers left after [clearInterval(this.#interval)] *)
Definition cleared (s : State) (b : Browser) : list Timer :=
  timers (stopInterval s b).

(** the current time is within 60000 ms of the timestamp's time *)
Definition within_a_minute (b : Browser) (ts : JS.Date) : Prop :=
  exists m, JS.getTime ts = Some m /\ (Z.abs (now b - m) <= 60000)%Z.

(** the placeholder shown for a missing timestamp *)
Definition none_placeholder : Template := Span "time" "None" "-".

(** [render] *)
Definition render (s : State) : Rendered :=
  match timestamp s with
  | None => Returns (Span "time" "None" "-")
  | Some ts =>
      if JS.strict_eqb (JS.getTime ts) 0 then Returns (Span "time" "None" "-")
      else
        let elapsedText := formatElapsedTime ts in
        match JS.getTime ts with
        | None => Throws
        | Some t =>
            Returns
              (Time (toISOString t)
                    (ifPresent (elapsed s) "elapsed")
                    (if elapsed s then Some elapsedText else None)
                    (if datetime s then Some (toLocaleString t) else None))
        end
  end.

End Element.

(** *** The rest of the element: change detection, interval callbacks,
    animation frames *)

(** a value of the [timestamp] property, as [hasChanged] receives it *)
Inductive PropertyValue : Type :=
| Undefined
| Null
| DateValue (d : JS.Date).

(** [a !== b] on the numbers [getTime] returns; NaN differs from everything *)
Definition time_differs (a b : JS.TimeValue) : bool :=
  match a, b with
  | Some x, Some y => negb (x =? y)%Z
  | _, _ => true
  end.

(** [hasChanged(value, previousValue)] of the [timestamp] property *)
Definition hasChanged (value previousValue : PropertyValue) : bool :=
  match value, previousValue with
  | DateValue d, DateValue d' => time_differs (JS.getTime d) (JS.getTime d')
  | Undefined, Undefined => false
  | Null, Null => false
  | _, _ => true
  end.

(** The closure given to [setInterval], run once.  The last component
    counts the calls of [requestUpdate]. *)
Definition tick (cb : Callback) (s : State) (b : Browser) : State * Browser * nat :=
  if negb (visible s) || negb (document_visible b) then (s, b, 0%nat)
  else
    match cb with
    | SecondTick moment =>
        let now := now b in
        if JS.ltb now (JS.sub moment 60000) || JS.gtb now (JS.add moment 60000) then
          let (s', b') := startInterval s b in (s', b', 1%nat)
        else (s, b, 1%nat)
    | MinuteTick => (s, b, 1%nat)
    end.

(** the animation frames the browser has pending, by request id *)
Record Frames : Type := mkFrames {
  pending : list Z;
  nextFrame : Z
}.

(** [cancelAnimationFrame(id)]: an unknown id is ignored *)
Definition cancelAnimationFrame (id : Z) (f : Frames) : Frames :=
  mkFrames (filter (fun i => negb (i =? id)%Z) (pending f)) (nextFrame f).

(** [requestAnimationFrame(this.startInterval)] *)
Definition requestAnimationFrame (f : Frames) : Z * Frames :=
  (nextFrame f, mkFrames (pending f ++ [nextFrame f]) (nextFrame f + 1)%Z).

(** what [updated] asks of [changed]: [changed.has(...)] for three names *)
Record Changed : Type := mkChanged {
  has_visible : bool;
  has_timestamp : bool;
  has_refresh : bool
}.

Definition reschedules (c : Changed) : bool :=
  has_visible c || has_timestamp c || has_refresh c.

(** [updated(changed)], on [#animationFrameID] and the pending frames *)
Definition updated (c : Changed) (st : Z * Frames) : Z * Frames :=
  let (animationFrameID, f) := st in
  if reschedules c then requestAnimationFrame (cancelAnimationFrame animationFrameID f)
  else (animationFrameID, f).

(** [disconnectedCallback] *)
Definition disconnectedCallback (s : State) (animationFrameID : Z)
           (b : Browser) (f : Frames) : Browser * Frames :=
  (stopInterval s b, cancelAnimationFrame animationFrameID f).

(** every handle in use was handed out before [nextHandle] *)
Definition handles_fresh (b : Browser) : Prop :=
  Forall (fun t => (handle t < nextHandle b)%Z) (timers b).

Definition frames_fresh (f : Frames) : Prop :=
  Forall (fun i => (i < nextFrame f)%Z) (pending f).

(** a timer without its handle *)
Definition job (t : Timer) : Callback * Z := (callback t, delay t).

(** what [startInterval] decides to install, from the element's properties
    and the browser's clock and visibility *)
Definition schedule (s : State) (b : Browser) : option (Callback * Z) :=
  match timestamp s with
  | None => None
  | Some ts =>
      if negb (refresh s) || negb (document_visible b) || negb (visible s) then None
      else if JS.geb (now b) (JS.sub (JS.getTime ts) 60000)
              && JS.leb (now b) (JS.add (JS.getTime ts) 60000)
           then Some (SecondTick (JS.getTime ts), 1000%Z)
           else Some (MinuteTick, 60000%Z)
  end.

(** [updated] once per entry of [changes], in order *)
Definition updated_all (changes : list Changed) (st : Z * Frames) : Z * Frames :=
  fold_left (fun st c => updated c st) changes st.

End Timestamp.

(** ** The intersectionObserver decorator *)
Module IntersectionObserver.

(** The options the callbacks read.  [hasOnIntersection] tells whether
    [options.onIntersection] is provided; [root], [rootMargin] and
    [threshold] only parameterise the browser's observer. *)
Record Options : Type := mkOptions {
  once : bool;
  hasOnIntersection : bool
}.

Inductive Event : Type :=
| OriginalConnectedCallback
| OriginalDisconnectedCallback
| RequestUpdate (oldValue : option bool)
| OnIntersection (isIntersecting : bool)
| Observe
| ObserveAfterFirstUpdate
| ObserverDisconnect.

(** The decorated element.  [slot] is [this[privateKey]] ([None] while
    undefined), [inObserverMap] tells whether [observerMap] has an entry for
    the element. *)
Record State : Type := mkState {
  slot : option bool;
  hasUpdated : bool;
  inObserverMap : bool;
  trace : list Event
}.

Definition log (e : Event) (s : State) : State :=
  mkState (slot s) (hasUpdated s) (inObserverMap s) (trace s ++ [e]).

(** [this[privateKey] = value] *)
Definition set_slot (v : bool) (s : State) : State :=
  mkState (Some v) (hasUpdated s) (inObserverMap s) (trace s).

Definition set_inObserverMap (v : bool) (s : State) : State :=
  mkState (slot s) (hasUpdated s) v (trace s).

(** the getter installed by [Object.defineProperty]: [this[privateKey] ?? false] *)
Definition get_key (s : State) : bool :=
  match slot s with
  | Some v => v
  | None => false
  end.

(** the setter installed by [Object.defineProperty] *)
Definition set_key (v : bool) (s : State) : State :=
  let oldValue := slot s in
  let s := set_slot v s in
  log (RequestUpdate oldValue) s.

(** the body of [entries.forEach] in the observer's callback *)
Definition on_entry (options : Options) (s : State) (isIntersecting : bool) : State :=
  let currentValue := get_key s in
  let s :=
    if negb (Bool.eqb currentValue isIntersecting) then
      let s := set_slot isIntersecting s in
      let s := set_key isIntersecting s in
      let s := if hasOnIntersection options then log (OnIntersection isIntersecting) s else s in
      log (RequestUpdate (Some currentValue)) s
    else s in
  if once options && isIntersecting then
    set_inObserverMap false (log ObserverDisconnect s)
  else s.

(** the observer's callback on a batch of entries *)
Definition observer_callback (options : Options) (entries : list bool) (s : State) : State :=
  fold_left (on_entry options) entries s.

(** the replaced [connectedCallback] *)
Definition connectedCallback (s : State) : State :=
  let s := log OriginalConnectedCallback s in
  let s := set_slot false s in
  let s := set_key false s in
  let s := set_inObserverMap true s in
  if hasUpdated s then log Observe s else log ObserveAfterFirstUpdate s.

(** the replaced [disconnectedCallback] *)
Definition disconnectedCallback (s : State) : State :=
  let s := log OriginalDisconnectedCallback s in
  if inObserverMap s then set_inObserverMap false (log ObserverDisconnect s) else s.

(** the events a step appended to the trace *)
Definition appended (before after : State) : list Event :=
  skipn (List.length (trace before)) (trace after).

(** what an entry that changes the property adds to the trace *)
Definition change_events (options : Options) (currentValue isIntersecting : bool)
  : list Event :=
  [RequestUpdate (Some isIntersecting)]
    ++ (if hasOnIntersection options then [OnIntersection isIntersecting] else [])
    ++ [RequestUpdate (Some currentValue)].

(** what the [once] option adds to the trace *)
Definition once_events (options : Options) (isIntersecting : bool) : list Event :=
  if once options && isIntersecting then [ObserverDisconnect] else [].

Definition is_RequestUpdate (e : Event) : bool :=
  match e with RequestUpdate _ => true | _ => false end.

Definition is_OnIntersection (e : Event) : bool :=
  match e with OnIntersection _ => true | _ => false end.

(** *** From the current value through a batch of entries *)

(** the values a batch changes the property to: each entry that differs
    from the value before it *)
Fixpoint changes (currentValue : bool) (entries : list bool) : list bool :=
  match entries with
  | [] => []
  | e :: rest =>
      if Bool.eqb currentValue e then changes e rest
      else e :: changes e rest
  end.

(** what a batch adds to the trace *)
Fixpoint batch_events (options : Options) (currentValue : bool) (entries : list bool)
  : list Event :=
  match entries with
  | [] => []
  | e :: rest =>
      (if Bool.eqb currentValue e then [] else change_events options currentValue e)
        ++ once_events options e
        ++ batch_events options e rest
  end.

Definition is_ObserverDisconnect (e : Event) : bool :=
  match e with ObserverDisconnect => true | _ => false end.

(** *** observeElement *)

(** an observation started by [observeElement]: whether the observer is
    still connected, and what was called *)
Record Observation : Type := mkObservation {
  connected : bool;
  calls : list Event
}.

(** [observeElement(element, options)] up to [observer.observe(element)] *)
Definition observeElement : Observation := mkObservation true [Observe].

(** the body of [entries.forEach] in [observeElement]'s callback *)
Definition observed_entry (options : Options) (o : Observation) (isIntersecting : bool)
  : Observation :=
  let o :=
    if hasOnIntersection options
    then mkObservation (connected o) (calls o ++ [OnIntersection isIntersecting])
    else o in
  if once options && isIntersecting
  then mkObservation false (calls o ++ [ObserverDisconnect])
  else o.

Definition observed_callback (options : Options) (entries : list bool) (o : Observation)
  : Observation :=
  fold_left (observed_entry options) entries o.

(** the cleanup function [observeElement] returns *)
Definition cleanup (o : Observation) : Observation :=
  mkObservation false (calls o ++ [ObserverDisconnect]).

End IntersectionObserver.

(** ** ModelForm *)
Module ModelForm.

(** [instancePk]: a string, a number, [null], or left undefined *)
Inductive PK : Type :=
| PkNull
| PkUndefined
| PkString (s : string)
| PkNumber (n : JS.Number).

(** [!pk] *)
Definition falsy (pk : PK) : bool :=
  match pk with
  | PkNull => true
  | PkUndefined => true
  | PkString s => negb (JS.string_truthy s)
  | PkNumber n => negb (JS.number_truthy n)
  end.

(** [typeof pk !== "number"] *)
Definition not_number (pk : PK) : bool :=
  match pk with
  | PkNumber _ => false
  | _ => true
  end.

(** what [renderError] and [render] return *)
Inductive Template : Type :=
| Nothing
| EmptyStateError (message detail : string)
| EmptyStateLoading
| FormRender.

Section Form.
(** the instance type [T], rejection reasons, and [ErrorProp] (an object) *)
Variables T Unknown ErrorProp : Type.
(** [parseAPIResponseError] and [pluckErrorDetail] of [#common/errors/network] *)
Variable parseAPIResponseError : Unknown -> ErrorProp.
Variable pluckErrorDetail : ErrorProp -> string.
(** [msg] of [@lit/localize] *)
Variable msg : string -> string.

(** Reactive properties and state; [visibleSlot] is the private slot of the
    decorated [visible] property. *)
Record Props : Type := mkProps {
  visibleSlot : option bool;
  instancePk : PK;
  instance : option T;
  error : option ErrorProp;
  loading : bool
}.

Inductive Event : Type :=
| SetLoading (value : bool)
| CallLoad
| CallLoadInstance (pk : PK)
| SetInstance (value : option T)
| SetError (value : ErrorProp)
| RequestUpdate.

Record State : Type := mkState {
  props : Props;
  trace : list Event
}.

(** The subclass: the optional [load] and the abstract [loadInstance].
    Each gives how its promise settles and what happened to the form's
    properties while it was pending. *)
Record Loader : Type := mkLoader {
  load : option (Props -> Props * Settled Unknown unit);
  loadInstance : PK -> Props -> Props * Settled Unknown T
}.

Definition visible (p : Props) : bool :=
  match visibleSlot p with
  | Some v => v
  | None => false
  end.

(** [get hidden()] *)
Definition hidden (p : Props) : bool := negb (visible p).

(** [get ariaHidden()] *)
Definition ariaHidden (p : Props) : string :=
  if visible p then "false" else "true".

Definition log (e : Event) (s : State) : State :=
  mkState (props s) (trace s ++ [e]).

Definition set_loading (v : bool) (s : State) : State :=
  let p := props s in
  log (SetLoading v)
    (mkState (mkProps (visibleSlot p) (instancePk p) (instance p) (error p) v) (trace s)).

Definition set_instance (v : option T) (s : State) : State :=
  let p := props s in
  log (SetInstance v)
    (mkState (mkProps (visibleSlot p) (instancePk p) v (error p) (loading p)) (trace s)).

Definition set_error (v : ErrorProp) (s : State) : State :=
  let p := props s in
  log (SetError v)
    (mkState (mkProps (visibleSlot p) (instancePk p) (instance p) (Some v) (loading p)) (trace s)).

(** [!this.instancePk && typeof this.instancePk !== "number"] *)
Definition pk_missing (p : Props) : bool :=
  falsy (instancePk p) && not_number (instancePk p).

(** [this.load?.() ?? Promise.resolve()] *)
Definition call_load (l : Loader) : Async State Unknown unit :=
  match load l with
  | None => resolve tt
  | Some f =>
      fun s =>
        let s := log CallLoad s in
        let (p', r) := f (props s) in
        (mkState p' (trace s), r)
  end.

(** [this.loadInstance(this.instancePk)] *)
Definition call_loadInstance (l : Loader) : Async State Unknown (option T) :=
  fun s =>
    let pk := instancePk (props s) in
    let s := log (CallLoadInstance pk) s in
    match loadInstance l pk (props s) with
    | (p', Resolved i) => (mkState p' (trace s), Resolved (Some i))
    | (p', Rejected e) => (mkState p' (trace s), Rejected e)
    end.

(** [#refresh] *)
Definition refresh (l : Loader) : Async State Unknown unit :=
  fun s =>
    if pk_missing (props s) then resolve tt s
    else
      let s := set_loading true s in
      let loadPromise := call_load l in
      finally_
        (catch_
           (then_
              (then_ loadPromise
                 (fun _ s =>
                    if pk_missing (props s) then resolve None s
                    else call_loadInstance l s))
              (fun i => effect (set_instance i)))
           (fun e => effect (set_error (parseAPIResponseError e))))
        (fun s => log RequestUpdate (set_loading false s))
        s.

(** [updated(changedProperties)]; [previousVisibility] is
    [changedProperties.get("visible")], [None] when it is not a boolean *)
Definition updated (l : Loader) (previousVisibility : option bool) (s : State) : State :=
  match previousVisibility with
  | None => s
  | Some previous =>
      if visible (props s) && negb (Bool.eqb (visible (props s)) previous)
      then fst (refresh l s)
      else s
  end.

(** [renderError] *)
Definition renderError (p : Props) : Template :=
  match error p with
  | None => Nothing
  | Some e => EmptyStateError (msg "Failed to fetch model.") (pluckErrorDetail e)
  end.

(** [render] *)
Definition render (p : Props) : Template :=
  if negb (visible p) then Nothing
  else match error p with
       | Some _ => renderError p
       | None => if loading p then EmptyStateLoading else FormRender
       end.

(** the properties once [#refresh] has raised [loading] *)
Definition loading_set (p : Props) : Props :=
  mkProps (visibleSlot p) (instancePk p) (instance p) (error p) true.

(** how [loadPromise] settles, and the properties at that time *)
Definition after_load (l : Loader) (p : Props) : Props * Settled Unknown unit :=
  match load l with
  | None => (loading_set p, Resolved tt)
  | Some f => f (loading_set p)
  end.

(** the refresh of [p] fails with reason [e], leaving the properties [q]
    to the handlers: [load()] rejects, or [loadInstance(pk)] does *)
Inductive Fails (l : Loader) (p : Props) : Unknown -> Props -> Prop :=
| load_rejects q e :
    after_load l p = (q, Rejected e) ->
    Fails l p e q
| loadInstance_rejects p1 u q e :
    after_load l p = (p1, Resolved u) ->
    pk_missing p1 = false ->
    loadInstance l (instancePk p1) p1 = (q, Rejected e) ->
    Fails l p e q.

(** the refresh of [p] succeeds with [i], leaving the properties [q] *)
Inductive Succeeds (l : Loader) (p : Props) : option T -> Props -> Prop :=
| pk_cleared q u :
    after_load l p = (q, Resolved u) ->
    pk_missing q = true ->
    Succeeds l p None q
| instance_loaded p1 u q i :
    after_load l p = (p1, Resolved u) ->
    pk_missing p1 = false ->
    loadInstance l (instancePk p1) p1 = (q, Resolved i) ->
    Succeeds l p (Some i) q.

(** the trace of the load phase *)
Definition load_events (l : Loader) : list Event :=
  match load l with
  | None => []
  | Some _ => [CallLoad]
  end.

Definition is_CallLoadInstance (e : Event) : bool :=
  match e with
  | CallLoadInstance _ => true
  | _ => false
  end.

Definition is_SetError (e : Event) : bool :=
  match e with
  | SetError _ => true
  | _ => false
  end.

Definition is_SetInstance (e : Event) : bool :=
  match e with
  | SetInstance _ => true
  | _ => false
  end.

(** the invariant of the visibility getters *)
Definition getters_agree (p : Props) : Prop :=
  hidden p = negb (visible p) /\
  (ariaHidden p = "true"%string <-> hidden p = true) /\
  (ariaHidden p = "false"%string <-> visible p = true).

(** one refresh, starting with an empty trace *)
Definition run_refresh (l : Loader) (p : Props) : State * Settled Unknown unit :=
  refresh l (mkState p []).

(** The operations on a form: a refresh, [updated], the decorator's
    [connectedCallback] and intersection callback writing [visible], and
    an assignment to [instancePk]. *)
Inductive step (l : Loader) : Props -> Props -> Prop :=
| step_refresh p :
    step l p (props (fst (run_refresh l p)))
| step_updated p previous :
    step l p (props (updated l previous (mkState p [])))
| step_connected p :
    step l p (mkProps (Some false) (instancePk p) (instance p) (error p) (loading p))
| step_intersection p isIntersecting :
    step l p (mkProps (Some isIntersecting) (instancePk p) (instance p) (error p) (loading p))
| step_set_instancePk p pk :
    step l p (mkProps (visibleSlot p) pk (instance p) (error p) (loading p)).

Inductive reachable (l : Loader) (p0 : Props) : Props -> Prop :=
| reach_init : reachable l p0 p0
| reach_step p p' : reachable l p0 p -> step l p p' -> reachable l p0 p'.

End Form.

End ModelForm.

(** ** themeImage *)
Module Theme.

Local Open Scope nat_scope.
Local Open Scope string_scope.

(** [GetSubstitution] for a string pattern.  There are no captures, so the
    only replacement patterns are [$$], [$`], [$&] and [$']; every other
    character of the template, a [$] followed by anything else included, is
    copied. *)
Fixpoint expand (matched before after template : string) : string :=
  match template with
  | EmptyString => EmptyString
  | String c rest =>
      if (c =? "$")%char then
        match rest with
        | EmptyString => String c EmptyString
        | String d rest' =>
            if (d =? "$")%char then String "$" (expand matched before after rest')
            else if (d =? "`")%char then before ++ expand matched before after rest'
            else if (d =? "&")%char then matched ++ expand matched before after rest'
            else if (d =? "'")%char then after ++ expand matched before after rest'
            else String c (expand matched before after rest)
        end
      else String c (expand matched before after rest)
  end.

Definition GetSubstitution (matched str : string) (position : nat) (template : string) : string :=
  let tailPos := position + length matched in
  expand matched
         (substring 0 position str)
         (substring tailPos (length str - tailPos) str)
         template.

(** [StringIndexOf(string, searchValue, fromIndex)] *)
Definition StringIndexOf (str searchValue : string) (fromIndex : nat) : option nat :=
  index fromIndex searchValue str.

(** the loop of [String.prototype.replaceAll] that collects the match
    positions; at most [length str + 1] positions exist *)
Fixpoint matchPositions (fuel : nat) (str searchString : string) (position : option nat)
  : list nat :=
  match fuel, position with
  | S fuel', Some p =>
      let advanceBy := Nat.max 1 (length searchString) in
      p :: matchPositions fuel' str searchString (StringIndexOf str searchString (p + advanceBy))
  | _, _ => []
  end.

(** the loop of [replaceAll] that builds the result *)
Fixpoint assemble (str searchString replaceValue : string) (positions : list nat)
         (endOfLastMatch : nat) (result : string) : string :=
  match positions with
  | [] =>
      if Nat.ltb endOfLastMatch (length str)
      then result ++ substring endOfLastMatch (length str - endOfLastMatch) str
      else result
  | p :: rest =>
      let preserved := substring endOfLastMatch (p - endOfLastMatch) str in
      let replacement := GetSubstitution searchString str p replaceValue in
      assemble str searchString replaceValue rest (p + length searchString)
               (result ++ preserved ++ replacement)
  end.

(** [str.replaceAll(searchString, replaceValue)] with two strings *)
Definition replaceAll (str searchString replaceValue : string) : string :=
  let positions :=
    matchPositions (S (length str)) str searchString (StringIndexOf str searchString 0) in
  assemble str searchString replaceValue positions 0 EmptyString.

(** the root interface element, by its [activeTheme] ([None] when undefined) *)
Record RootInterface : Type := mkRoot { activeTheme : option string }.

(** [rootInterface()?.activeTheme || resolveUITheme()] *)
Definition enabledTheme (root : option RootInterface) (resolvedUITheme : string) : string :=
  match root with
  | None => resolvedUITheme
  | Some r =>
      match activeTheme r with
      | None => resolvedUITheme
      | Some t => if JS.string_truthy t then t else resolvedUITheme
      end
  end.

Definition placeholder : string := "%(theme)s".

(** [themeImage] *)
Definition themeImage (root : option RootInterface) (resolvedUITheme : string)
           (rawPath : string) : string :=
  replaceAll rawPath placeholder (enabledTheme root resolvedUITheme).

(** *** Vocabulary of the specification *)

(** [pat] occurs in [s] at offset [k] *)
Definition occurs_at (pat s : string) (k : nat) : Prop :=
  substring k (length pat) s = pat.

(** [s] has no occurrence of [pat] *)
Definition free_of (pat s : string) : Prop :=
  forall k, ~ occurs_at pat s k.

(** the pieces glued together with [sep] between them *)
Fixpoint join (sep : string) (pieces : list string) : string :=
  match pieces with
  | [] => EmptyString
  | [x] => x
  | x :: rest => x ++ sep ++ join sep rest
  end.

(** a theme name without the character [$] *)
Fixpoint dollar_free (s : string) : bool :=
  match s with
  | EmptyString => true
  | String c rest => negb (c =? "$")%char && dollar_free rest
  end.

(** *** Theme names that cannot rebuild the placeholder *)

(** the character [c] does not occur in [s] *)
Fixpoint lacks (c : ascii) (s : string) : bool :=
  match s with
  | EmptyString => true
  | String d rest => negb (d =? c)%char && lacks c rest
  end.

(** a theme name that is not empty and starts with a character the
    placeholder does not continue with *)
Definition starts_apart (theme : string) : bool :=
  match theme with
  | EmptyString => false
  | String c _ => lacks c "(theme)s"
  end.

(** *** isDefaultAvatar *)

(** [String.prototype.endsWith(searchString)] *)
Definition endsWith (str searchString : string) : bool :=
  let len := length str in
  let searchLength := length searchString in
  if Nat.ltb len searchLength then false
  else String.eqb (substring (len - searchLength) searchLength str) searchString.

(** [isDefaultAvatar(path)]; [None] is a null or undefined path *)
Definition isDefaultAvatar (path : option string) : bool :=
  match path with
  | None => false
  | Some p => endsWith p "user_default.png"
  end.

End Theme.

(** * Sample inputs *)

Module ModalFormExamples.
Import ModalForm.

Definition refresh_event : string := "ak-refresh".
Definition localized (s : string) : string := s.

(** a form whose fields do not validate *)
Definition invalid_form : Form nat :=
  mkForm false (fun p => (p, Resolved tt)).

(** a valid form whose submission the server refuses *)
Definition refused_form : Form nat :=
  mkForm true (fun p => (p, Rejected 400%nat)).

(** a valid form whose submission succeeds *)
Definition accepted_form : Form nat :=
  mkForm true (fun p => (p, Resolved tt)).

(** an open modal, flags down *)
Definition open_modal : Props := mkProps true false false (Some true).
End ModalFormExamples.

Module TimestampExamples.
Import Timestamp.

(** a visible, refreshing element showing a recent instant and holding
    interval 7 *)
Definition recent : State :=
  mkState (Some (JS.mkDate (Some 1700000000000%Z))) true true false true 7.

(** a visible document, 30 s after that instant, with two intervals running *)
Definition browser : Browser :=
  mkBrowser [mkTimer 3 MinuteTick 60000; mkTimer 7 MinuteTick 60000]
            8 DocVisible 1700000030000.

(** stand-ins for the browser's date functions *)
Definition parse_nothing (s : string) : JS.Number := JS.NaN.
Definition describe (d : JS.Date) : string := "some time ago".
Definition iso (t : Z) : string := "1970-01-01T00:00:00.000Z".
Definition present (c : bool) (v : string) : option string :=
  if c then Some v else None.

(** the Date [new Date(0)] *)
Definition epoch : JS.Date := JS.mkDate (Some 0%Z).

(** the same document an hour later, the element's second interval running *)
Definition an_hour_later : Browser :=
  mkBrowser [mkTimer 7 (SecondTick (Some 1700000000000%Z)) 1000]
            8 DocVisible 1700003600000.
End TimestampExamples.

Module IntersectionObserverExamples.
Import IntersectionObserver.

(** an element connected and rendered, currently not intersecting *)
Definition offscreen : State := mkState (Some false) true true [].

(** [{ onIntersection: ... }] *)
Definition with_callback : Options := mkOptions false true.
End IntersectionObserverExamples.

Module ModelFormExamples.
Import ModelForm.

(** instances are numbers, rejection reasons HTTP statuses, and a parsed
    error is its text *)
Definition parse (status : nat) : string := "request failed".
Definition pluck (e : string) : string := e.
Definition localized (s : string) : string := s.

(** a visible form bound to the numeric key 0 *)
Definition bound_to_zero : Props nat string :=
  mkProps (Some true) (PkNumber (JS.Finite 0)) None None false.

(** a subclass without [load] whose [loadInstance] is refused *)
Definition refused : Loader nat nat string :=
  mkLoader None (fun pk p => (p, Rejected 404%nat)).

(** a subclass whose [load] resolves after the key was cleared *)
Definition clearing : Loader nat nat string :=
  mkLoader
    (Some (fun p => (mkProps (visibleSlot p) PkNull (instance p) (error p) (loading p),
                     Resolved tt)))
    (fun pk p => (p, Resolved 7%nat)).

(** a form whose key was cleared while an earlier refresh is still in
    flight: [loading] is raised and [instancePk] is null *)
Definition cleared_in_flight : Props nat string :=
  mkProps (Some true) PkNull None None true.

(** a subclass without [load] whose [loadInstance] answers 7 *)
Definition answering : Loader nat nat string :=
  mkLoader None (fun pk p => (p, Resolved 7%nat)).

(** the same form after an earlier refresh failed *)
Definition failed_before : Props nat string :=
  mkProps (Some true) (PkNumber (JS.Finite 0)) None (Some "request failed"%string) false.

(** the same form holding the instance 3 *)
Definition loaded_before : Props nat string :=
  mkProps (Some true) (PkNumber (JS.Finite 0)) (Some 3%nat) None false.
End ModelFormExamples.

Module ThemeExamples.
Import Theme.

(** a root interface showing the dark theme *)
Definition dark_root : option RootInterface := Some (mkRoot (Some "dark"%string)).

Definition icon_path : string := "/static/dist/assets/icons/icon_%(theme)s.svg".
End ThemeExamples.

(** * Properties *)

(** ** ModalForm *)
Section ModalFormProperties.
Import ModalForm.

Variable Unknown : Type.
Variable EVENT_REFRESH : string.
Variable msg : string -> string.

Local Abbreviation run := (@run_confirm Unknown EVENT_REFRESH msg).

Lemma precedes_intro {A} (a b : A) l1 l2 l3 :
  precedes a b (l1 ++ a :: l2 ++ b :: l3).
Proof. exists l1, l2, l3. reflexivity. Qed.

(** The trace of a run in which validation fails. *)
Lemma run_invalid slotted form p :
  findForm slotted = Some form ->
  reportValidity form = false ->
  run slotted p =
    (mkState (mkProps (closeAfterSuccessfulSubmit p) false false (dialog p))
             [ReportValidity; SetLoading false; SetLocked false],
     Resolved tt).
Proof.
  intros Hfind Hrv.
  unfold run, run_confirm, confirm. rewrite Hfind.
  unfold then_, call_reportValidity. cbn. rewrite Hrv. reflexivity.
Qed.

(** The state in which the settlement handlers start. *)
Lemma run_valid slotted form p :
  findForm slotted = Some form ->
  reportValidity form = true ->
  run slotted p =
    catch_ (then_ (call_submit form) (fun _ => on_submitted Unknown EVENT_REFRESH))
           (@on_failed Unknown)
           (mkState (armed p) [ReportValidity; SetLoading true; SetLocked true]).
Proof.
  intros Hfind Hrv.
  unfold run, run_confirm, confirm. rewrite Hfind.
  unfold then_ at 1. unfold call_reportValidity. cbn. rewrite Hrv. reflexivity.
Qed.

Lemma run_no_form slotted p :
  findForm slotted = None ->
  run slotted p =
    (mkState p [], Rejected (JsError Unknown (msg "No form found within the default slot"))).
Proof.
  intros Hfind. unfold run, run_confirm, confirm. rewrite Hfind. reflexivity.
Qed.

(** The three ways a run with a valid form ends. *)
Lemma run_valid_rejected slotted form p p' r :
  findForm slotted = Some form ->
  reportValidity form = true ->
  submit form (armed p) = (p', Rejected r) ->
  run slotted p =
    (mkState (mkProps (closeAfterSuccessfulSubmit p') false false (dialog p'))
             [ReportValidity; SetLoading true; SetLocked true; Submit;
              SetLoading false; SetLocked false],
     Rejected (Reason r)).
Proof.
  intros Hfind Hrv Hsub. rewrite (run_valid _ _ Hfind Hrv).
  unfold catch_, then_, call_submit. cbn. rewrite Hsub. reflexivity.
Qed.

Lemma run_valid_resolved_keep slotted form p p' :
  findForm slotted = Some form ->
  reportValidity form = true ->
  submit form (armed p) = (p', Resolved tt) ->
  closeAfterSuccessfulSubmit p' = false ->
  run slotted p =
    (mkState (mkProps false false false (dialog p'))
             [ReportValidity; SetLoading true; SetLocked true; Submit;
              SetLoading false; SetLocked false],
     Resolved tt).
Proof.
  intros Hfind Hrv Hsub Hclose. rewrite (run_valid _ _ Hfind Hrv).
  unfold catch_, then_, call_submit. cbn. rewrite Hsub. cbn.
  unfold on_submitted. cbn. rewrite Hclose.
  unfold then_, effect, resolve, set_locked, set_loading, log. cbn.
  rewrite Hclose. reflexivity.
Qed.

Lemma run_valid_resolved_close slotted form p p' :
  findForm slotted = Some form ->
  reportValidity form = true ->
  submit form (armed p) = (p', Resolved tt) ->
  closeAfterSuccessfulSubmit p' = true ->
  run slotted p =
    (mkState (mkProps true false false (option_map (fun _ => false) (dialog p')))
             ([ReportValidity; SetLoading true; SetLocked true; Submit; SetOpen false]
                ++ close_events p'
                ++ [FormReset; DispatchEvent EVENT_REFRESH true true;
                    SetLoading false; SetLocked false]),
     Resolved tt).
Proof.
  intros Hfind Hrv Hsub Hclose. rewrite (run_valid _ _ Hfind Hrv).
  unfold catch_, then_, call_submit. cbn. rewrite Hsub. cbn.
  unfold on_submitted. cbn. rewrite Hclose.
  unfold then_, effect, set_open, close_events, set_locked, set_loading, log. cbn.
  destruct (dialog p') eqn:Hdialog; cbn; rewrite ?Hclose, ?Hdialog; reflexivity.
Qed.

Lemma run_cases (slotted : list (Element Unknown)) p : RunCase slotted p.
Proof.
  destruct (findForm slotted) as [form|] eqn:Hfind; [|now apply case_no_form].
  destruct (reportValidity form) eqn:Hrv; [|now apply case_invalid with form].
  destruct (submit form (armed p)) as [p' [[]|r]] eqn:Hsub.
  - destruct (closeAfterSuccessfulSubmit p') eqn:Hclose.
    + now apply case_closed with form p'.
    + now apply case_kept_open with form p'.
  - now apply case_rejected with form p' r.
Qed.

Ltac trace_membership H :=
  cbn in H;
  repeat (destruct H as [H|H]; try discriminate H);
  try contradiction.

(** C1: in [#confirm] validation precedes submission: [submit] is only
    ever called after [reportValidity], and when [reportValidity()] of the
    slotted form answers false, [submit] is not called at all, [loading]
    and [locked] are both written false, and the operation returns. *)
Theorem confirm_validates_before_submitting slotted p :
  (In Submit (trace (fst (run slotted p))) ->
   precedes ReportValidity Submit (trace (fst (run slotted p)))) /\
  (forall form,
      findForm slotted = Some form ->
      reportValidity form = false ->
      ~ In Submit (trace (fst (run slotted p))) /\
      trace (fst (run slotted p)) = [ReportValidity; SetLoading false; SetLocked false] /\
      loading (props (fst (run slotted p))) = false /\
      locked (props (fst (run slotted p))) = false /\
      snd (run slotted p) = Resolved tt).
Proof.
  split.
  - intros Hin.
    destruct (run_cases slotted p) as
      [Hfind|form Hfind Hrv|form p' r Hfind Hrv Hsub
       |form p' Hfind Hrv Hsub Hclose|form p' Hfind Hrv Hsub Hclose].
    + rewrite (run_no_form _ _ Hfind) in Hin. trace_membership Hin.
    + rewrite (run_invalid _ _ Hfind Hrv) in Hin. trace_membership Hin.
    + rewrite (run_valid_rejected _ _ Hfind Hrv Hsub). cbn.
      apply (precedes_intro ReportValidity Submit [] [SetLoading true; SetLocked true]).
    + rewrite (run_valid_resolved_keep _ _ Hfind Hrv Hsub Hclose). cbn.
      apply (precedes_intro ReportValidity Submit [] [SetLoading true; SetLocked true]).
    + rewrite (run_valid_resolved_close _ _ Hfind Hrv Hsub Hclose). cbn.
      apply (precedes_intro ReportValidity Submit [] [SetLoading true; SetLocked true]).
  - intros form Hfind Hrv. rewrite (run_invalid _ _ Hfind Hrv). cbn.
    repeat split. intros Hin. trace_membership Hin.
Qed.

(** C2: when validation passes, [loading] and [locked] are written true
    before [submit] is called (so [submit] runs under [armed p]); once the
    submission settles both are written false again as the last two
    actions, whether it resolved or rejected; a rejection is passed on
    after the flags are cleared. *)
Theorem confirm_flags_bracket_submission slotted form p :
  findForm slotted = Some form ->
  reportValidity form = true ->
  exists middle,
    trace (fst (run slotted p)) =
      [ReportValidity; SetLoading true; SetLocked true; Submit]
        ++ middle ++ [SetLoading false; SetLocked false] /\
    forallb (fun e => negb (is_flag_write e)) middle = true /\
    loading (armed p) = true /\
    locked (armed p) = true /\
    loading (props (fst (run slotted p))) = false /\
    locked (props (fst (run slotted p))) = false /\
    snd (run slotted p) =
      match snd (submit form (armed p)) with
      | Resolved _ => Resolved tt
      | Rejected r => Rejected (Reason r)
      end.
Proof.
  intros Hfind Hrv.
  destruct (submit form (armed p)) as [p' [[]|r]] eqn:Hsub.
  - destruct (closeAfterSuccessfulSubmit p') eqn:Hclose.
    + rewrite (run_valid_resolved_close _ _ Hfind Hrv Hsub Hclose).
      exists ([SetOpen false] ++ close_events p'
                ++ [FormReset; DispatchEvent EVENT_REFRESH true true]).
      cbn. unfold close_events. destruct (dialog p'); cbn; repeat split.
    + rewrite (run_valid_resolved_keep _ _ Hfind Hrv Hsub Hclose).
      exists []. cbn. repeat split.
  - rewrite (run_valid_rejected _ _ Hfind Hrv Hsub).
    exists []. cbn. repeat split.
Qed.

(** C3: an event is dispatched exactly when the submission resolved and
    [closeAfterSuccessfulSubmit] is true at that time, and it is the
    refresh event, bubbling and composed; then [open] was assigned false
    (closing the dialog) and the form reset before the dispatch, and the
    modal is closed afterwards.  After a failed validation or a rejected
    submission nothing is dispatched. *)
Theorem confirm_refresh_event slotted p :
  (forall type bubbles composed,
      In (DispatchEvent type bubbles composed) (trace (fst (run slotted p))) <->
      type = EVENT_REFRESH /\ bubbles = true /\ composed = true /\
      refresh_due slotted p) /\
  (refresh_due slotted p ->
   exists p',
     trace (fst (run slotted p)) =
       [ReportValidity; SetLoading true; SetLocked true; Submit; SetOpen false]
         ++ close_events p'
         ++ [FormReset; DispatchEvent EVENT_REFRESH true true;
             SetLoading false; SetLocked false] /\
     precedes Submit (DispatchEvent EVENT_REFRESH true true) (trace (fst (run slotted p))) /\
     precedes (SetOpen false) FormReset (trace (fst (run slotted p))) /\
     precedes FormReset (DispatchEvent EVENT_REFRESH true true)
              (trace (fst (run slotted p))) /\
     open (props (fst (run slotted p))) = false /\
     snd (run slotted p) = Resolved tt) /\
  (forall form type bubbles composed,
      findForm slotted = Some form ->
      reportValidity form = false ->
      ~ In (DispatchEvent type bubbles composed) (trace (fst (run slotted p)))) /\
  (forall form r type bubbles composed,
      findForm slotted = Some form ->
      snd (submit form (armed p)) = Rejected r ->
      ~ In (DispatchEvent type bubbles composed) (trace (fst (run slotted p)))).
Proof.
  assert (Hiff : forall type bubbles composed,
      In (DispatchEvent type bubbles composed) (trace (fst (run slotted p))) <->
      type = EVENT_REFRESH /\ bubbles = true /\ composed = true /\
      refresh_due slotted p).
  { intros type bubbles composed.
    destruct (run_cases slotted p) as
      [Hfind|form Hfind Hrv|form p' r Hfind Hrv Hsub
       |form p' Hfind Hrv Hsub Hclose|form p' Hfind Hrv Hsub Hclose].
    - rewrite (run_no_form _ _ Hfind). split.
      + intros Hin. trace_membership Hin.
      + intros (_ & _ & _ & f & q & Hf & _). congruence.
    - rewrite (run_invalid _ _ Hfind Hrv). split.
      + intros Hin. trace_membership Hin.
      + intros (_ & _ & _ & f & q & Hf & Hv & _). congruence.
    - rewrite (run_valid_rejected _ _ Hfind Hrv Hsub). split.
      + intros Hin. trace_membership Hin.
      + intros (_ & _ & _ & f & q & Hf & Hv & Hs & _).
        assert (f = form) by congruence. subst f. congruence.
    - rewrite (run_valid_resolved_keep _ _ Hfind Hrv Hsub Hclose). split.
      + intros Hin. trace_membership Hin.
      + intros (_ & _ & _ & f & q & Hf & Hv & Hs & Hc).
        assert (f = form) by congruence. subst f.
        assert (q = p') by congruence. subst q. congruence.
    - rewrite (run_valid_resolved_close _ _ Hfind Hrv Hsub Hclose). split.
      + intros Hin. unfold close_events in Hin.
        assert (Hev : DispatchEvent EVENT_REFRESH true true
                      = DispatchEvent type bubbles composed).
        { destruct (dialog p'); trace_membership Hin; assumption. }
        inversion Hev; subst. repeat split. exists form, p'. repeat split; assumption.
      + intros (-> & -> & -> & _). cbn. right. right. right. right. right.
        apply in_or_app. right. cbn. auto. }
  split; [exact Hiff|]. split; [|split].
  - intros (form & p' & Hfind & Hrv & Hsub & Hclose). exists p'.
    rewrite (run_valid_resolved_close _ _ Hfind Hrv Hsub Hclose). cbn [fst snd trace props].
    split; [reflexivity|]. unfold precedes, close_events, open. cbn.
    destruct (dialog p'); cbn; (split; [|split; [|split; [|split]]]); try reflexivity.
    + exists [ReportValidity; SetLoading true; SetLocked true],
             [SetOpen false; DialogClose; FormReset],
             [SetLoading false; SetLocked false]. reflexivity.
    + exists [ReportValidity; SetLoading true; SetLocked true; Submit],
             [DialogClose],
             [DispatchEvent EVENT_REFRESH true true; SetLoading false; SetLocked false].
      reflexivity.
    + exists [ReportValidity; SetLoading true; SetLocked true; Submit;
              SetOpen false; DialogClose],
             [],
             [SetLoading false; SetLocked false]. reflexivity.
    + exists [ReportValidity; SetLoading true; SetLocked true],
             [SetOpen false; FormReset],
             [SetLoading false; SetLocked false]. reflexivity.
    + exists [ReportValidity; SetLoading true; SetLocked true; Submit],
             [],
             [DispatchEvent EVENT_REFRESH true true; SetLoading false; SetLocked false].
      reflexivity.
    + exists [ReportValidity; SetLoading true; SetLocked true; Submit; SetOpen false],
             [],
             [SetLoading false; SetLocked false]. reflexivity.
  - intros form type bubbles composed Hfind Hrv Hin.
    apply Hiff in Hin. destruct Hin as (_ & _ & _ & f & q & Hf & Hv & _). congruence.
  - intros form r type bubbles composed Hfind Hrej Hin.
    apply Hiff in Hin. destruct Hin as (_ & _ & _ & f & q & Hf & Hv & Hs & _).
    assert (f = form) by congruence. subst f. rewrite Hs in Hrej. discriminate Hrej.
Qed.

End ModalFormProperties.

Lemma confirm_validates_before_submitting_witness :
  let s' := fst (ModalForm.run_confirm ModalFormExamples.refresh_event
                   ModalFormExamples.localized
                   [ModalForm.OtherElement nat;
                    ModalForm.FormElement ModalFormExamples.invalid_form]
                   ModalFormExamples.open_modal) in
  ~ In ModalForm.Submit (ModalForm.trace s') /\
  ModalForm.loading (ModalForm.props s') = false /\
  ModalForm.locked (ModalForm.props s') = false.
Proof.
  destruct (proj2 (confirm_validates_before_submitting
                     ModalFormExamples.refresh_event ModalFormExamples.localized
                     [ModalForm.OtherElement nat;
                      ModalForm.FormElement ModalFormExamples.invalid_form]
                     ModalFormExamples.open_modal)
                  ModalFormExamples.invalid_form eq_refl eq_refl)
    as (Hno & _ & Hloading & Hlocked & _).
  cbv zeta. split; [exact Hno|]. split; [exact Hloading|exact Hlocked].
Defined.

Lemma confirm_flags_bracket_submission_witness :
  exists middle,
    ModalForm.trace
      (fst (ModalForm.run_confirm ModalFormExamples.refresh_event
              ModalFormExamples.localized
              [ModalForm.FormElement ModalFormExamples.refused_form]
              ModalFormExamples.open_modal)) =
      [ModalForm.ReportValidity; ModalForm.SetLoading true; ModalForm.SetLocked true;
       ModalForm.Submit]
        ++ middle ++ [ModalForm.SetLoading false; ModalForm.SetLocked false] /\
    snd (ModalForm.run_confirm ModalFormExamples.refresh_event
           ModalFormExamples.localized
           [ModalForm.FormElement ModalFormExamples.refused_form]
           ModalFormExamples.open_modal) = Rejected (ModalForm.Reason 400%nat).
Proof.
  destruct (confirm_flags_bracket_submission
              ModalFormExamples.refresh_event ModalFormExamples.localized
              [ModalForm.FormElement ModalFormExamples.refused_form]
              ModalFormExamples.open_modal
              (form := ModalFormExamples.refused_form) eq_refl eq_refl)
    as (middle & Htrace & _ & _ & _ & _ & _ & Hresult).
  exists middle. split; [exact Htrace|exact Hresult].
Defined.

Lemma confirm_refresh_event_witness :
  In (ModalForm.DispatchEvent ModalFormExamples.refresh_event true true)
     (ModalForm.trace
        (fst (ModalForm.run_confirm ModalFormExamples.refresh_event
                ModalFormExamples.localized
                [ModalForm.FormElement ModalFormExamples.accepted_form]
                ModalFormExamples.open_modal))) /\
  ModalForm.open
    (ModalForm.props
       (fst (ModalForm.run_confirm ModalFormExamples.refresh_event
               ModalFormExamples.localized
               [ModalForm.FormElement ModalFormExamples.accepted_form]
               ModalFormExamples.open_modal))) = false.
Proof.
  assert (Hdue : ModalForm.refresh_due
                   [ModalForm.FormElement ModalFormExamples.accepted_form]
                   ModalFormExamples.open_modal).
  { exists ModalFormExamples.accepted_form, (ModalForm.armed ModalFormExamples.open_modal).
    repeat split. }
  destruct (confirm_refresh_event
              ModalFormExamples.refresh_event ModalFormExamples.localized
              [ModalForm.FormElement ModalFormExamples.accepted_form]
              ModalFormExamples.open_modal)
    as (Hiff & Hclosed & _).
  split.
  - apply Hiff. repeat split. exact Hdue.
  - destruct (Hclosed Hdue) as (q & _ & _ & _ & _ & Hopen & _). exact Hopen.
Defined.

(** ** AKTimestamp *)
Section TimestampProperties.
Import Timestamp.

Lemma clearInterval_forgets h b :
  Forall (fun t => handle t <> h) (timers (clearInterval h b)).
Proof.
  unfold clearInterval. cbn. apply Forall_forall. intros t Hin.
  apply filter_In in Hin. destruct Hin as [_ Hneq].
  apply negb_true_iff in Hneq. apply Z.eqb_neq in Hneq. exact Hneq.
Qed.

Lemma within_a_minute_test b ts :
  JS.geb (now b) (JS.sub (JS.getTime ts) 60000)
    && JS.leb (now b) (JS.add (JS.getTime ts) 60000) = true
  <-> within_a_minute b ts.
Proof.
  unfold within_a_minute. destruct (JS.getTime ts) as [m|]; cbn.
  - rewrite andb_true_iff, !Z.leb_le. split.
    + intros [Hlo Hhi]. exists m. split; [reflexivity|lia].
    + intros (m' & Hm & Habs). inversion Hm; subst. lia.
  - split; [discriminate|]. intros (m & Hm & _). discriminate Hm.
Qed.

(** C4: [startInterval] first clears the interval it holds; it installs
    nothing when the timestamp is null, [refresh] is false, the document
    is hidden or the element is not visible; otherwise it installs exactly
    one interval, of 1000 ms when the current time is within 60000 ms of
    the timestamp's time (bounds included) and of 60000 ms when not. *)
Theorem startInterval_schedule (s : State) (b : Browser) :
  Forall (fun t => handle t <> interval s) (cleared s b) /\
  ((timestamp s = None \/ refresh s = false \/
    visibilityState b = DocHidden \/ visible s = false) ->
   startInterval s b =
     (s, mkBrowser (cleared s b) (nextHandle b) (visibilityState b) (now b))) /\
  (forall ts,
      timestamp s = Some ts -> refresh s = true ->
      visibilityState b = DocVisible -> visible s = true ->
      exists cb d,
        startInterval s b =
          (set_interval_field (nextHandle b) s,
           mkBrowser (cleared s b ++ [mkTimer (nextHandle b) cb d])
                     (nextHandle b + 1) (visibilityState b) (now b)) /\
        (within_a_minute b ts -> d = 1000%Z /\ cb = SecondTick (JS.getTime ts)) /\
        (~ within_a_minute b ts -> d = 60000%Z /\ cb = MinuteTick)).
Proof.
  split; [apply clearInterval_forgets|]. split.
  - intros Hblocked. unfold startInterval, cleared.
    destruct (timestamp s) as [ts|]; [|reflexivity].
    destruct Hblocked as [Hts|[Hr|[Hd|Hv]]]; [discriminate Hts| | |].
    + rewrite Hr. reflexivity.
    + unfold document_visible, stopInterval, clearInterval. cbn. rewrite Hd.
      destruct (refresh s); reflexivity.
    + rewrite Hv. rewrite !orb_true_r. reflexivity.
  - intros ts Hts Hr Hd Hv. unfold startInterval, cleared. rewrite Hts, Hr, Hv.
    unfold document_visible at 1. unfold stopInterval at 1. unfold clearInterval at 1.
    cbn [visibilityState]. rewrite Hd. cbn [negb orb].
    change (now (stopInterval s b)) with (now b).
    destruct (JS.geb (now b) (JS.sub (JS.getTime ts) 60000)
                && JS.leb (now b) (JS.add (JS.getTime ts) 60000)) eqn:Htest.
    + exists (SecondTick (JS.getTime ts)), 1000%Z.
      split; [unfold setInterval, stopInterval, clearInterval; cbn; rewrite ?Hd; reflexivity|].
      split.
      * intros _. split; reflexivity.
      * intros Hout. exfalso. apply Hout. apply within_a_minute_test. exact Htest.
    + exists MinuteTick, 60000%Z.
      split; [unfold setInterval, stopInterval, clearInterval; cbn; rewrite ?Hd; reflexivity|].
      split.
      * intros Hin. apply within_a_minute_test in Hin. congruence.
      * intros _. split; reflexivity.
Qed.

End TimestampProperties.

Lemma startInterval_schedule_witness :
  Timestamp.timers (snd (Timestamp.startInterval TimestampExamples.recent
                           TimestampExamples.browser)) =
    [Timestamp.mkTimer 3 Timestamp.MinuteTick 60000;
     Timestamp.mkTimer 8 (Timestamp.SecondTick (Some 1700000000000%Z)) 1000].
Proof.
  destruct (startInterval_schedule TimestampExamples.recent TimestampExamples.browser)
    as (_ & _ & Hinstall).
  destruct (Hinstall (JS.mkDate (Some 1700000000000%Z)) eq_refl eq_refl eq_refl eq_refl)
    as (cb & d & Hrun & Hnear & _).
  destruct Hnear as [Hd Hcb].
  { exists 1700000000000%Z. split; [reflexivity|]. cbn. lia. }
  rewrite Hrun, Hd, Hcb. reflexivity.
Defined.

Section TimestampRendering.
Import Timestamp.

Variable Date_parse : string -> JS.Number.
Variable formatElapsedTime : JS.Date -> string.
Variables toISOString toLocaleString : Z -> string.
Variable ifPresent : bool -> string -> option string.

Local Abbreviation render :=
  (Timestamp.render formatElapsedTime toISOString toLocaleString ifPresent).
Local Abbreviation set_timestamp := (Timestamp.set_timestamp Date_parse).

Lemma render_placeholder_iff s :
  render s = Returns none_placeholder <->
  (timestamp s = None \/
   exists d, timestamp s = Some d /\ JS.getTime d = Some 0%Z).
Proof.
  unfold Timestamp.render. destruct (timestamp s) as [d|].
  - destruct (JS.getTime d) as [t|] eqn:Htime; cbn.
    + destruct (t =? 0)%Z eqn:Hzero.
      * apply Z.eqb_eq in Hzero. subst t. split; [|reflexivity].
        intros _. right. exists d. split; [reflexivity|exact Htime].
      * apply Z.eqb_neq in Hzero. split; [discriminate|].
        intros [Hnone|(d' & Hd' & Hepoch)]; [discriminate Hnone|].
        inversion Hd'; subst d'. rewrite Htime in Hepoch. inversion Hepoch. contradiction.
    + split; [discriminate|].
      intros [Hnone|(d' & Hd' & Hepoch)]; [discriminate Hnone|].
      inversion Hd'; subst d'. rewrite Htime in Hepoch. discriminate Hepoch.
  - split; [|reflexivity]. intros _. left. reflexivity.
Qed.

(** C10: the [timestamp] setter stores null for every falsy value (null,
    0, the empty string among them) and a Date for every other value;
    [render] gives the placeholder "-" labelled "None" exactly when the
    stored timestamp is null or has time 0, so a timestamp at the epoch is
    never rendered as a time element. *)
Theorem timestamp_falsy_and_epoch_placeholder :
  (forall v s, truthy v = false -> timestamp (set_timestamp v s) = None) /\
  (forall v s, truthy v = true -> exists d, timestamp (set_timestamp v s) = Some d) /\
  (forall s,
      timestamp (set_timestamp InNull s) = None /\
      timestamp (set_timestamp (InNumber (JS.Finite 0)) s) = None /\
      timestamp (set_timestamp (InString EmptyString) s) = None) /\
  (forall s,
      render s = Returns (Span "time" "None" "-") <->
      (timestamp s = None \/
       exists d, timestamp s = Some d /\ JS.getTime d = Some 0%Z)) /\
  (forall s d,
      timestamp s = Some d -> JS.getTime d = Some 0%Z ->
      forall a b c e, render s <> Returns (Time a b c e)).
Proof.
  split; [|split; [|split; [|split]]].
  - intros v s Hfalsy. unfold Timestamp.set_timestamp. rewrite Hfalsy. reflexivity.
  - intros v s Htruthy. unfold Timestamp.set_timestamp. rewrite Htruthy.
    cbn [timestamp]. eexists. reflexivity.
  - intros s. repeat split.
  - intros s. apply render_placeholder_iff.
  - intros s d Hd Hepoch a b c e Hrender.
    assert (Hplace : render s = Returns none_placeholder).
    { apply render_placeholder_iff. right. exists d. split; assumption. }
    rewrite Hplace in Hrender. discriminate Hrender.
Qed.

End TimestampRendering.

Lemma timestamp_falsy_and_epoch_placeholder_witness :
  Timestamp.timestamp
    (Timestamp.set_timestamp TimestampExamples.parse_nothing
       (Timestamp.InNumber (JS.Finite 0)) TimestampExamples.recent) = None /\
  Timestamp.render TimestampExamples.describe TimestampExamples.iso TimestampExamples.iso
    TimestampExamples.present
    (Timestamp.set_timestamp TimestampExamples.parse_nothing
       (Timestamp.InDate TimestampExamples.epoch) TimestampExamples.recent)
  = Timestamp.Returns (Timestamp.Span "time" "None" "-").
Proof.
  destruct (timestamp_falsy_and_epoch_placeholder
              TimestampExamples.parse_nothing TimestampExamples.describe
              TimestampExamples.iso TimestampExamples.iso TimestampExamples.present)
    as (Hfalsy & _ & _ & Hrender & _).
  split.
  - apply Hfalsy. reflexivity.
  - apply Hrender. right. exists TimestampExamples.epoch. split; reflexivity.
Defined.

(** ** intersectionObserver *)
Section IntersectionObserverProperties.
Import IntersectionObserver.

Lemma skipn_own_length {A} (l r : list A) : skipn (List.length l) (l ++ r) = r.
Proof. induction l as [|x l IH]; [reflexivity|exact IH]. Qed.

Lemma on_entry_changed options s isIntersecting :
  isIntersecting <> get_key s ->
  on_entry options s isIntersecting =
    (if once options && isIntersecting
     then mkState (Some isIntersecting) (hasUpdated s) false
     else mkState (Some isIntersecting) (hasUpdated s) (inObserverMap s))
      (trace s ++ change_events options (get_key s) isIntersecting
               ++ once_events options isIntersecting).
Proof.
  intros Hdiff. unfold on_entry, change_events, once_events.
  assert (Htest : negb (Bool.eqb (get_key s) isIntersecting) = true).
  { apply negb_true_iff. destruct (Bool.eqb (get_key s) isIntersecting) eqn:Heq;
      [apply Bool.eqb_prop in Heq; congruence|reflexivity]. }
  rewrite Htest.
  destruct (hasOnIntersection options), (once options && isIntersecting);
    unfold set_key, set_slot, set_inObserverMap, log; cbn;
    rewrite <- ?app_assoc; reflexivity.
Qed.

Lemma on_entry_unchanged options s isIntersecting :
  isIntersecting = get_key s ->
  on_entry options s isIntersecting =
    (if once options && isIntersecting
     then mkState (slot s) (hasUpdated s) false
     else mkState (slot s) (hasUpdated s) (inObserverMap s))
      (trace s ++ once_events options isIntersecting).
Proof.
  intros ->. unfold on_entry, once_events.
  rewrite Bool.eqb_reflx. cbn [negb].
  destruct (once options && get_key s);
    unfold set_inObserverMap, log; cbn; [reflexivity|].
  rewrite app_nil_r. destruct s; reflexivity.
Qed.

(** C5: [connectedCallback] initialises the decorated property to false.
    An entry whose [isIntersecting] differs from the property's current
    value rewrites the property, calls [onIntersection] (when given) and
    requests an update; an entry that reports the current value leaves the
    property alone, calls nothing and requests no update. *)
Theorem intersection_tracks_changes :
  (forall s,
      slot (connectedCallback s) = Some false /\
      get_key (connectedCallback s) = false) /\
  (forall options s isIntersecting,
      isIntersecting <> get_key s ->
      slot (on_entry options s isIntersecting) = Some isIntersecting /\
      get_key (on_entry options s isIntersecting) = isIntersecting /\
      appended s (on_entry options s isIntersecting) =
        change_events options (get_key s) isIntersecting
          ++ once_events options isIntersecting /\
      (hasOnIntersection options = true ->
       In (OnIntersection isIntersecting)
          (appended s (on_entry options s isIntersecting))) /\
      In (RequestUpdate (Some (get_key s)))
         (appended s (on_entry options s isIntersecting))) /\
  (forall options s isIntersecting,
      isIntersecting = get_key s ->
      slot (on_entry options s isIntersecting) = slot s /\
      get_key (on_entry options s isIntersecting) = get_key s /\
      appended s (on_entry options s isIntersecting) = once_events options isIntersecting /\
      forallb (fun e => negb (is_RequestUpdate e) && negb (is_OnIntersection e))
              (appended s (on_entry options s isIntersecting)) = true).
Proof.
  split; [|split].
  - intros s. unfold connectedCallback, get_key.
    destruct (hasUpdated _); split; reflexivity.
  - intros options s isIntersecting Hdiff.
    assert (Happ : appended s (on_entry options s isIntersecting) =
                   change_events options (get_key s) isIntersecting
                     ++ once_events options isIntersecting).
    { rewrite (on_entry_changed options s Hdiff). unfold appended.
      destruct (once options && isIntersecting); cbn [trace];
        rewrite skipn_own_length; reflexivity. }
    rewrite Happ. rewrite (on_entry_changed options s Hdiff).
    split; [destruct (once options && isIntersecting); reflexivity|].
    split; [unfold get_key; destruct (once options && isIntersecting); reflexivity|].
    split; [reflexivity|]. split.
    + intros Hcb. unfold change_events. rewrite Hcb. cbn. auto.
    + unfold change_events. destruct (hasOnIntersection options); cbn; auto.
  - intros options s isIntersecting Hsame.
    assert (Happ : appended s (on_entry options s isIntersecting) =
                   once_events options isIntersecting).
    { rewrite (on_entry_unchanged options s Hsame). unfold appended.
      destruct (once options && isIntersecting); cbn [trace];
        rewrite skipn_own_length; reflexivity. }
    rewrite Happ. rewrite (on_entry_unchanged options s Hsame).
    split; [destruct (once options && isIntersecting); reflexivity|].
    split; [unfold get_key; destruct (once options && isIntersecting); reflexivity|].
    split; [reflexivity|].
    unfold once_events. destruct (once options && isIntersecting); reflexivity.
Qed.

Lemma last_ignores_default {A} (x : A) l d d' : last (x :: l) d = last (x :: l) d'.
Proof.
  revert x. induction l as [|y l IH]; intros x; [reflexivity|].
  change (last (y :: l) d = last (y :: l) d'). apply IH.
Qed.

(** X12: After a batch of entries the property holds what the last entry reported. *)
Lemma observer_callback_last options entries s :
  get_key (observer_callback options entries s) = last entries (get_key s).
Proof.
  unfold observer_callback. revert s.
  induction entries as [|e rest IH]; intros s; [reflexivity|].
  cbn [fold_left]. rewrite IH.
  assert (He : get_key (on_entry options s e) = e).
  { destruct s as [[[|]|] updated registered events];
      destruct e, (once options) eqn:Honce, (hasOnIntersection options) eqn:Hcb;
      unfold on_entry, get_key; cbn; rewrite ?Honce, ?Hcb; reflexivity. }
  rewrite He. destruct rest as [|b rest]; [reflexivity|].
  change (last (b :: rest) e = last (b :: rest) (get_key s)). apply last_ignores_default.
Qed.

End IntersectionObserverProperties.

Lemma intersection_tracks_changes_witness :
  IntersectionObserver.appended IntersectionObserverExamples.offscreen
    (IntersectionObserver.on_entry IntersectionObserverExamples.with_callback
       IntersectionObserverExamples.offscreen true)
  = [IntersectionObserver.RequestUpdate (Some true);
     IntersectionObserver.OnIntersection true;
     IntersectionObserver.RequestUpdate (Some false)] /\
  IntersectionObserver.appended IntersectionObserverExamples.offscreen
    (IntersectionObserver.on_entry IntersectionObserverExamples.with_callback
       IntersectionObserverExamples.offscreen false)
  = [].
Proof.
  destruct intersection_tracks_changes as (_ & Hchanged & Hsame).
  split.
  - destruct (Hchanged IntersectionObserverExamples.with_callback
                IntersectionObserverExamples.offscreen true)
      as (_ & _ & Happ & _).
    + discriminate.
    + exact Happ.
  - destruct (Hsame IntersectionObserverExamples.with_callback
                IntersectionObserverExamples.offscreen false eq_refl)
      as (_ & _ & Happ & _).
    exact Happ.
Defined.

(** ** ModelForm *)
Section ModelFormProperties.
Import ModelForm.

Variables T Unknown ErrorProp : Type.
Variable parseAPIResponseError : Unknown -> ErrorProp.
Variable pluckErrorDetail : ErrorProp -> string.
Variable msg : string -> string.

Local Abbreviation Props := (ModelForm.Props T ErrorProp).
Local Abbreviation Loader := (ModelForm.Loader T Unknown ErrorProp).
Local Abbreviation run := (@run_refresh T Unknown ErrorProp parseAPIResponseError).
Local Abbreviation renderError := (@ModelForm.renderError T ErrorProp pluckErrorDetail msg).
Local Abbreviation render := (@ModelForm.render T ErrorProp pluckErrorDetail msg).

Lemma run_skipped (l : Loader) (p : Props) :
  pk_missing p = true ->
  run l p = (mkState p [], Resolved tt).
Proof.
  intros Hmissing. unfold run_refresh, refresh. cbn. rewrite Hmissing. reflexivity.
Qed.

Lemma call_load_settles (l : Loader) (p : Props) :
  call_load l (mkState (loading_set p) [SetLoading T ErrorProp true]) =
    (mkState (fst (after_load l p)) (SetLoading T ErrorProp true :: load_events l),
     snd (after_load l p)).
Proof.
  unfold call_load, after_load, load_events.
  destruct (load l) as [f|]; [|reflexivity].
  cbn. destruct (f (loading_set p)) as [q r]. reflexivity.
Qed.

Local Abbreviation settled q i err :=
  (mkProps (visibleSlot q) (instancePk q) i err false : Props).

Ltac start_refresh Hpresent :=
  unfold run_refresh, refresh; cbn [props]; rewrite Hpresent;
  unfold finally_, catch_, then_;
  change (set_loading true (mkState ?x []))
    with (mkState (loading_set x) [SetLoading T ErrorProp true]);
  rewrite call_load_settles.

Ltac finish_refresh :=
  unfold resolve, effect, set_error, set_instance, set_loading, log; cbn;
  rewrite <- ?app_assoc; reflexivity.

(** The four ways a refresh that starts the load sequence ends. *)
Lemma run_load_rejects (l : Loader) (p : Props) q e :
  pk_missing p = false ->
  after_load l p = (q, Rejected e) ->
  run l p =
    (mkState (settled q (instance q) (Some (parseAPIResponseError e)))
             (SetLoading T ErrorProp true
                :: load_events l
                ++ [SetError T (parseAPIResponseError e);
                    SetLoading T ErrorProp false; RequestUpdate T ErrorProp]),
     Resolved tt).
Proof.
  intros Hpresent Hload. start_refresh Hpresent. rewrite Hload. cbn [fst snd].
  finish_refresh.
Qed.

Lemma run_loadInstance_rejects (l : Loader) (p : Props) p1 u q e :
  pk_missing p = false ->
  after_load l p = (p1, Resolved u) ->
  pk_missing p1 = false ->
  loadInstance l (instancePk p1) p1 = (q, Rejected e) ->
  run l p =
    (mkState (settled q (instance q) (Some (parseAPIResponseError e)))
             (SetLoading T ErrorProp true
                :: load_events l
                ++ [CallLoadInstance T ErrorProp (instancePk p1);
                    SetError T (parseAPIResponseError e);
                    SetLoading T ErrorProp false; RequestUpdate T ErrorProp]),
     Resolved tt).
Proof.
  intros Hpresent Hload Hpk Hinstance. start_refresh Hpresent. rewrite Hload.
  cbn [fst snd props]. rewrite Hpk.
  unfold call_loadInstance. unfold log at 1. cbn [props]. rewrite Hinstance.
  finish_refresh.
Qed.

Lemma run_pk_cleared (l : Loader) (p : Props) q u :
  pk_missing p = false ->
  after_load l p = (q, Resolved u) ->
  pk_missing q = true ->
  run l p =
    (mkState (settled q None (error q))
             (SetLoading T ErrorProp true
                :: load_events l
                ++ [SetInstance ErrorProp None;
                    SetLoading T ErrorProp false; RequestUpdate T ErrorProp]),
     Resolved tt).
Proof.
  intros Hpresent Hload Hpk. start_refresh Hpresent. rewrite Hload.
  cbn [fst snd props]. rewrite Hpk. finish_refresh.
Qed.

Lemma run_instance_loaded (l : Loader) (p : Props) p1 u q i :
  pk_missing p = false ->
  after_load l p = (p1, Resolved u) ->
  pk_missing p1 = false ->
  loadInstance l (instancePk p1) p1 = (q, Resolved i) ->
  run l p =
    (mkState (settled q (Some i) (error q))
             (SetLoading T ErrorProp true
                :: load_events l
                ++ [CallLoadInstance T ErrorProp (instancePk p1);
                    SetInstance ErrorProp (Some i);
                    SetLoading T ErrorProp false; RequestUpdate T ErrorProp]),
     Resolved tt).
Proof.
  intros Hpresent Hload Hpk Hinstance. start_refresh Hpresent. rewrite Hload.
  cbn [fst snd props]. rewrite Hpk.
  unfold call_loadInstance. unfold log at 1. cbn [props]. rewrite Hinstance.
  finish_refresh.
Qed.

(** what the handlers of a failing refresh leave behind *)
Lemma run_fails (l : Loader) (p : Props) e q :
  pk_missing p = false ->
  Fails l p e q ->
  exists mid,
    run l p =
      (mkState (settled q (instance q) (Some (parseAPIResponseError e)))
               (SetLoading T ErrorProp true
                  :: mid ++ [SetError T (parseAPIResponseError e);
                             SetLoading T ErrorProp false;
                             RequestUpdate T ErrorProp]),
       Resolved tt).
Proof.
  intros Hpresent [q' e' Hload|p1 u q' e' Hload Hpk Hinstance].
  - exists (load_events l). apply run_load_rejects; assumption.
  - exists (load_events l ++ [CallLoadInstance T ErrorProp (instancePk p1)]).
    rewrite (@run_loadInstance_rejects l p p1 u q' e' Hpresent Hload Hpk Hinstance).
    rewrite <- app_assoc. reflexivity.
Qed.

(** what the handlers of a successful refresh leave behind *)
Lemma run_succeeds (l : Loader) (p : Props) i q :
  pk_missing p = false ->
  Succeeds l p i q ->
  exists mid,
    run l p =
      (mkState (settled q i (error q))
               (SetLoading T ErrorProp true
                  :: mid ++ [SetInstance ErrorProp i;
                             SetLoading T ErrorProp false;
                             RequestUpdate T ErrorProp]),
       Resolved tt).
Proof.
  intros Hpresent [q' u Hload Hpk|p1 u q' i' Hload Hpk Hinstance].
  - exists (load_events l). apply run_pk_cleared with u; assumption.
  - exists (load_events l ++ [CallLoadInstance T ErrorProp (instancePk p1)]).
    rewrite (@run_instance_loaded l p p1 u q' i' Hpresent Hload Hpk Hinstance).
    rewrite <- app_assoc. reflexivity.
Qed.

Lemma run_outcome (l : Loader) (p : Props) :
  (exists e q, Fails l p e q) \/ (exists i q, Succeeds l p i q).
Proof.
  destruct (after_load l p) as [p1 [u|e]] eqn:Hload.
  - destruct (pk_missing p1) eqn:Hpk.
    + right. exists None, p1. now apply pk_cleared with u.
    + destruct (loadInstance l (instancePk p1) p1) as [q [i|e]] eqn:Hinstance.
      * right. exists (Some i), q. now apply instance_loaded with p1 u.
      * left. exists e, q. now apply loadInstance_rejects with p1 u.
  - left. exists e, p1. now apply load_rejects.
Qed.

(** C6, as amended: when a refresh fails, because [load()] or
    [loadInstance(pk)] rejects, the reason goes through
    [parseAPIResponseError] into [error], and [renderError] shows the
    message "Failed to fetch model." with the plucked detail.  Whenever the
    load sequence runs, that is whenever [instancePk] is present, [loading]
    is written false once the refresh has settled, on success and on
    failure, and the refresh resolves.  A refresh that returns early on a
    missing key does not write [loading]: it stays as it was, false when it
    was false, raised when an earlier refresh had raised it. *)
Theorem refresh_failure_is_reported (l : Loader) (p : Props) :
  (forall e q,
      pk_missing p = false ->
      Fails l p e q ->
      error (props (fst (run l p))) = Some (parseAPIResponseError e) /\
      In (SetError T (parseAPIResponseError e)) (trace (fst (run l p))) /\
      renderError (props (fst (run l p))) =
        EmptyStateError (msg "Failed to fetch model.")
                        (pluckErrorDetail (parseAPIResponseError e)) /\
      (visible q = true ->
       render (props (fst (run l p))) =
         EmptyStateError (msg "Failed to fetch model.")
                         (pluckErrorDetail (parseAPIResponseError e))) /\
      loading (props (fst (run l p))) = false) /\
  (pk_missing p = false ->
   loading (props (fst (run l p))) = false /\
   snd (run l p) = Resolved tt /\
   exists mid,
     trace (fst (run l p)) =
       SetLoading T ErrorProp true
         :: mid ++ [SetLoading T ErrorProp false; RequestUpdate T ErrorProp]) /\
  (loading p = false -> loading (props (fst (run l p))) = false) /\
  (pk_missing p = true ->
   loading (props (fst (run l p))) = loading p /\
   trace (fst (run l p)) = [] /\
   snd (run l p) = Resolved tt).
Proof.
  assert (Hsettles : pk_missing p = false ->
           loading (props (fst (run l p))) = false /\
           snd (run l p) = Resolved tt /\
           exists mid,
             trace (fst (run l p)) =
               SetLoading T ErrorProp true
                 :: mid ++ [SetLoading T ErrorProp false; RequestUpdate T ErrorProp]).
  { intros Hpresent.
    destruct (run_outcome l p) as [(e & q & Hfails)|(i & q & Hok)].
    - destruct (run_fails Hpresent Hfails) as (mid & ->). cbn.
      repeat split. exists (mid ++ [SetError T (parseAPIResponseError e)]).
      rewrite <- app_assoc. reflexivity.
    - destruct (run_succeeds Hpresent Hok) as (mid & ->). cbn.
      repeat split. exists (mid ++ [SetInstance ErrorProp i]).
      rewrite <- app_assoc. reflexivity. }
  split; [|split; [exact Hsettles|split]].
  - intros e q Hpresent Hfails.
    destruct (run_fails Hpresent Hfails) as (mid & ->). cbn [fst props trace error loading].
    split; [reflexivity|]. split.
    + right. apply in_or_app. right. left. reflexivity.
    + split; [reflexivity|]. split; [|reflexivity].
      intros Hvisible. unfold ModelForm.render, ModelForm.renderError, visible in *.
      cbn. rewrite Hvisible. reflexivity.
  - intros Hidle. destruct (pk_missing p) eqn:Hpk.
    + rewrite (run_skipped l p Hpk). exact Hidle.
    + apply Hsettles. reflexivity.
  - intros Hmissing. rewrite (run_skipped l p Hmissing). repeat split.
Qed.

(** C8: in every state of a ModelForm [hidden] is the negation of
    [visible], and [ariaHidden] is "true" exactly when [hidden] and
    "false" exactly when [visible]; in particular in every state an
    operation on the form leads to. *)
Theorem visibility_getters_agree :
  (forall p : Props, getters_agree p) /\
  (forall (l : Loader) (p p' : Props),
      step parseAPIResponseError l p p' -> getters_agree p') /\
  (forall (l : Loader) (p0 p : Props),
      reachable parseAPIResponseError l p0 p -> getters_agree p).
Proof.
  assert (Hall : forall p : Props, getters_agree p).
  { intros p. unfold getters_agree, hidden, ariaHidden.
    destruct (visible p); cbn; repeat split; intros H; try reflexivity; discriminate H. }
  split; [exact Hall|]. split; intros; apply Hall.
Qed.

(** C9: a refresh of a form whose [instancePk] is null, undefined or the
    empty string resolves at once and changes nothing; a numeric key, 0
    included, starts the load sequence.  The test is made again once
    [load()] has resolved: a key cleared meanwhile sets [instance] to null
    and [loadInstance] is not called, a key still there is passed to
    [loadInstance]. *)
Theorem refresh_requires_primary_key (l : Loader) (p : Props) :
  (pk_missing p = true <->
   instancePk p = PkNull \/ instancePk p = PkUndefined \/
   instancePk p = PkString EmptyString) /\
  (pk_missing p = true -> run l p = (mkState p [], Resolved tt)) /\
  (forall n,
      instancePk p = PkNumber n ->
      exists rest, trace (fst (run l p)) = SetLoading T ErrorProp true :: rest) /\
  (forall q u,
      pk_missing p = false ->
      after_load l p = (q, Resolved u) ->
      pk_missing q = true ->
      instance (props (fst (run l p))) = None /\
      In (SetInstance ErrorProp None) (trace (fst (run l p))) /\
      forallb (fun e => negb (is_CallLoadInstance e)) (trace (fst (run l p))) = true) /\
  (forall q u,
      pk_missing p = false ->
      after_load l p = (q, Resolved u) ->
      pk_missing q = false ->
      In (CallLoadInstance T ErrorProp (instancePk q)) (trace (fst (run l p)))).
Proof.
  split; [|split; [|split; [|split]]].
  - unfold pk_missing. destruct (instancePk p) as [| |[|c s]|n]; cbn.
    + split; auto.
    + split; auto.
    + split; auto.
    + split; [discriminate|]. intros [H|[H|H]]; discriminate H.
    + rewrite andb_false_r. split; [discriminate|]. intros [H|[H|H]]; discriminate H.
  - apply run_skipped.
  - intros n Hn.
    assert (Hpresent : pk_missing p = false).
    { unfold pk_missing. rewrite Hn. cbn. apply andb_false_r. }
    destruct (run_outcome l p) as [(e & q & Hfails)|(i & q & Hok)].
    + destruct (run_fails Hpresent Hfails) as (mid & ->). eexists. reflexivity.
    + destruct (run_succeeds Hpresent Hok) as (mid & ->). eexists. reflexivity.
  - intros q u Hpresent Hload Hpk.
    rewrite (@run_pk_cleared l p q u Hpresent Hload Hpk). cbn [fst props trace instance].
    split; [reflexivity|]. split.
    + right. apply in_or_app. right. left. reflexivity.
    + unfold load_events. destruct (load l); reflexivity.
  - intros q u Hpresent Hload Hpk.
    destruct (loadInstance l (instancePk q) q) as [q' [i|e]] eqn:Hinstance.
    + rewrite (@run_instance_loaded l p q u q' i Hpresent Hload Hpk Hinstance).
      cbn [fst trace]. right. apply in_or_app. right. left. reflexivity.
    + rewrite (@run_loadInstance_rejects l p q u q' e Hpresent Hload Hpk Hinstance).
      cbn [fst trace]. right. apply in_or_app. right. left. reflexivity.
Qed.

End ModelFormProperties.

Lemma refresh_failure_is_reported_witness :
  let p' := ModelForm.props
              (fst (ModelForm.run_refresh ModelFormExamples.parse
                      ModelFormExamples.refused ModelFormExamples.bound_to_zero)) in
  ModelForm.error p' = Some "request failed"%string /\
  ModelForm.renderError ModelFormExamples.pluck ModelFormExamples.localized p' =
    ModelForm.EmptyStateError "Failed to fetch model." "request failed" /\
  ModelForm.loading p' = false.
Proof.
  destruct (refresh_failure_is_reported ModelFormExamples.parse ModelFormExamples.pluck
              ModelFormExamples.localized ModelFormExamples.refused
              ModelFormExamples.bound_to_zero) as (Hreported & _ & _).
  destruct (Hreported 404%nat (ModelForm.loading_set ModelFormExamples.bound_to_zero)
              eq_refl
              (ModelForm.loadInstance_rejects ModelFormExamples.refused
                 ModelFormExamples.bound_to_zero (u := tt) eq_refl eq_refl eq_refl))
    as (Herror & _ & Hrender & _ & Hloading).
  cbv zeta. split; [exact Herror|]. split; [exact Hrender|exact Hloading].
Defined.

(** [loading] is not false after every refresh: a refresh that finds no
    key while [loading] is raised resolves at once and leaves it raised. *)
Lemma refresh_without_key_leaves_loading_raised :
  ModelForm.loading
    (ModelForm.props
       (fst (ModelForm.run_refresh ModelFormExamples.parse ModelFormExamples.refused
               ModelFormExamples.cleared_in_flight))) = true /\
  snd (ModelForm.run_refresh ModelFormExamples.parse ModelFormExamples.refused
         ModelFormExamples.cleared_in_flight) = Resolved tt /\
  ~ (forall (l : ModelForm.Loader nat nat string) (p : ModelForm.Props nat string),
        ModelForm.loading
          (ModelForm.props (fst (ModelForm.run_refresh ModelFormExamples.parse l p)))
        = false).
Proof.
  split; [reflexivity|]. split; [reflexivity|].
  intros Hall.
  specialize (Hall ModelFormExamples.refused ModelFormExamples.cleared_in_flight).
  discriminate Hall.
Qed.

Lemma visibility_getters_agree_witness :
  ModelForm.getters_agree
    (ModelForm.props
       (fst (ModelForm.run_refresh ModelFormExamples.parse
               ModelFormExamples.refused ModelFormExamples.bound_to_zero))).
Proof.
  destruct (@visibility_getters_agree nat nat string ModelFormExamples.parse)
    as (_ & _ & Hreach).
  apply (Hreach ModelFormExamples.refused ModelFormExamples.bound_to_zero).
  apply ModelForm.reach_step with ModelFormExamples.bound_to_zero.
  - apply ModelForm.reach_init.
  - apply ModelForm.step_refresh.
Defined.

Lemma refresh_requires_primary_key_witness :
  ModelForm.instance
    (ModelForm.props
       (fst (ModelForm.run_refresh ModelFormExamples.parse
               ModelFormExamples.clearing ModelFormExamples.bound_to_zero))) = None /\
  forallb (fun e => negb (ModelForm.is_CallLoadInstance e))
    (ModelForm.trace
       (fst (ModelForm.run_refresh ModelFormExamples.parse
               ModelFormExamples.clearing ModelFormExamples.bound_to_zero))) = true.
Proof.
  destruct (refresh_requires_primary_key ModelFormExamples.parse
              ModelFormExamples.clearing ModelFormExamples.bound_to_zero)
    as (_ & _ & _ & Hcleared & _).
  destruct (Hcleared
              (ModelForm.mkProps (Some true) ModelForm.PkNull None None true) tt
              eq_refl eq_refl eq_refl)
    as (Hinstance & _ & Hcalls).
  split; [exact Hinstance|exact Hcalls].
Defined.

(** ** themeImage *)
Section StringFacts.
Local Open Scope nat_scope.
Local Open Scope string_scope.

Lemma substring_of_empty n m : substring n m EmptyString = EmptyString.
Proof. destruct n, m; reflexivity. Qed.

Lemma substring_none n s : substring n 0 s = EmptyString.
Proof.
  revert n. induction s as [|c s IH]; intros [|n]; try reflexivity.
  cbn. apply IH.
Qed.

Lemma substring_whole s : substring 0 (length s) s = s.
Proof. induction s as [|c s IH]; [reflexivity|]. cbn. rewrite IH. reflexivity. Qed.

Lemma append_empty_r s : s ++ EmptyString = s.
Proof. induction s as [|c s IH]; [reflexivity|]. cbn. rewrite IH. reflexivity. Qed.

Lemma append_assoc (a b c : string) : (a ++ b) ++ c = a ++ b ++ c.
Proof. induction a as [|x a IH]; [reflexivity|]. cbn. rewrite IH. reflexivity. Qed.

Lemma substring_length p n s : length (substring p n s) = Nat.min n (length s - p).
Proof.
  revert p n. induction s as [|c s IH]; intros p n.
  - rewrite substring_of_empty. cbn. rewrite Nat.min_0_r. reflexivity.
  - destruct p as [|p].
    + destruct n as [|n]; [reflexivity|]. cbn. rewrite IH, Nat.sub_0_r. reflexivity.
    + cbn. apply IH.
Qed.

(** a range cut in two *)
Lemma substring_split s e a b :
  substring e (a + b) s = substring e a s ++ substring (e + a) b s.
Proof.
  revert e a. induction s as [|c s IH]; intros e a.
  - rewrite !substring_of_empty. reflexivity.
  - destruct e as [|e].
    + destruct a as [|a]; [reflexivity|].
      cbn. rewrite (IH 0 a). reflexivity.
    + cbn. apply IH.
Qed.

(** a range of a range *)
Lemma substring_nested s e m k n :
  substring k n (substring e m s) = substring (e + k) (Nat.min n (m - k)) s.
Proof.
  revert e m k n. induction s as [|c s IH]; intros e m k n.
  - rewrite !substring_of_empty. reflexivity.
  - destruct e as [|e].
    + destruct m as [|m].
      * change (substring 0 0 (String c s)) with EmptyString.
        rewrite substring_of_empty. cbn [Nat.sub]. rewrite Nat.min_0_r, substring_none.
        reflexivity.
      * destruct k as [|k].
        -- destruct n as [|n]; [reflexivity|].
           cbn. rewrite (IH 0 m 0 n), Nat.sub_0_r. reflexivity.
        -- cbn. rewrite (IH 0 m k n). reflexivity.
    + cbn. apply IH.
Qed.

Lemma index_from n pat s m : index n pat s = Some m -> n <= m.
Proof.
  revert n m. induction s as [|c s IH]; intros n m Hindex.
  - destruct n; [lia|discriminate Hindex].
  - destruct n as [|n]; [lia|].
    cbn in Hindex. destruct (index n pat s) as [k|] eqn:Hrest; [|discriminate Hindex].
    inversion Hindex; subst. apply IH in Hrest. lia.
Qed.

(** an occurrence lies inside the string *)
Lemma occurrence_fits pat s k :
  pat <> EmptyString -> substring k (length pat) s = pat -> k + length pat <= length s.
Proof.
  intros Hpat Hocc.
  assert (Hlen : length (substring k (length pat) s) = length pat) by (rewrite Hocc; reflexivity).
  rewrite substring_length in Hlen.
  destruct pat as [|c pat]; [contradiction|]. cbn [length] in *. lia.
Qed.

(** an occurrence inside a range is an occurrence in the string *)
Lemma occurrence_in_range pat s e m k :
  pat <> EmptyString ->
  substring k (length pat) (substring e m s) = pat ->
  substring (e + k) (length pat) s = pat /\ k + length pat <= m.
Proof.
  intros Hpat Hocc.
  assert (Hlen : length (substring k (length pat) (substring e m s)) = length pat)
    by (rewrite Hocc; reflexivity).
  rewrite substring_nested in Hocc, Hlen. rewrite substring_length in Hlen.
  assert (Hpos : 0 < length pat) by (destruct pat; [contradiction|cbn; lia]).
  assert (Hmin : Nat.min (length pat) (m - k) = length pat) by lia.
  rewrite Hmin in Hocc. split; [exact Hocc|lia].
Qed.

End StringFacts.

Section ReplaceAllFacts.
Import Theme.
Local Open Scope nat_scope.
Local Open Scope string_scope.

Lemma expand_literal matched before after template :
  dollar_free template = true ->
  expand matched before after template = template.
Proof.
  induction template as [|c rest IH]; [reflexivity|].
  cbn [dollar_free expand]. intros Hfree.
  apply andb_true_iff in Hfree. destruct Hfree as [Hc Hrest].
  apply negb_true_iff in Hc. rewrite Hc. rewrite (IH Hrest). reflexivity.
Qed.

Lemma join_cons sep x pieces :
  pieces <> [] -> join sep (x :: pieces) = x ++ sep ++ join sep pieces.
Proof. intros Hne. destruct pieces; [contradiction|reflexivity]. Qed.

Variables str pat theme : string.
Hypothesis pat_not_empty : pat <> EmptyString.

Lemma replaceAll_untouched :
  free_of pat str -> replaceAll str pat theme = str.
Proof.
  intros Hfree. unfold replaceAll, StringIndexOf.
  destruct (index 0 pat str) as [p|] eqn:Hindex.
  - exfalso. apply (Hfree p). exact (index_correct1 _ _ _ _ Hindex).
  - cbn [matchPositions assemble]. rewrite Nat.sub_0_r, substring_whole.
    destruct (Nat.ltb 0 (length str)) eqn:Hlen; [reflexivity|].
    apply Nat.ltb_ge in Hlen. destruct str; [reflexivity|cbn in Hlen; lia].
Qed.

Hypothesis theme_literal : dollar_free theme = true.

Lemma assemble_pieces fuel :
  forall e result,
    e <= length str ->
    length str - e < fuel ->
    exists pieces,
      pieces <> [] /\
      substring e (length str - e) str = join pat pieces /\
      assemble str pat theme
               (matchPositions fuel str pat (StringIndexOf str pat e)) e result
        = result ++ join theme pieces /\
      Forall (free_of pat) pieces.
Proof.
  assert (Hpos : 0 < length pat) by (destruct pat; [contradiction|cbn; lia]).
  induction fuel as [|fuel IH]; intros e result He Hfuel; [lia|].
  unfold StringIndexOf. destruct (index e pat str) as [p|] eqn:Hindex.
  - assert (Hocc := index_correct1 _ _ _ _ Hindex).
    assert (Hge := index_from _ _ _ Hindex).
    assert (Hfit := @occurrence_fits pat str p pat_not_empty Hocc).
    cbn [matchPositions assemble]. cbv zeta.
    replace (Nat.max 1 (length pat)) with (length pat) by lia.
    unfold GetSubstitution. rewrite expand_literal by exact theme_literal.
    destruct (IH (p + length pat) (result ++ substring e (p - e) str ++ theme))
      as (pieces & Hne & Hjoin & Hasm & Hfree); [lia|lia|].
    exists (substring e (p - e) str :: pieces).
    split; [discriminate|]. split; [|split].
    + rewrite join_cons by exact Hne. rewrite <- Hjoin.
      replace (length str - e)
        with ((p - e) + (length pat + (length str - (p + length pat)))) by lia.
      rewrite substring_split. replace (e + (p - e)) with p by lia.
      rewrite substring_split, Hocc. reflexivity.
    + rewrite Hasm. rewrite join_cons by exact Hne.
      rewrite !append_assoc. reflexivity.
    + constructor; [|exact Hfree].
      intros k Hk. apply occurrence_in_range in Hk; [|exact pat_not_empty].
      destruct Hk as [Hk Hle].
      apply (index_correct2 _ _ _ _ Hindex (e + k)); [lia|lia|exact Hk].
  - cbn [matchPositions assemble].
    exists [substring e (length str - e) str].
    split; [discriminate|]. split; [reflexivity|]. split.
    + cbn [join]. destruct (Nat.ltb e (length str)) eqn:Hlt; [reflexivity|].
      apply Nat.ltb_ge in Hlt. replace (length str - e) with 0 by lia.
      rewrite substring_none, append_empty_r. reflexivity.
    + constructor; [|constructor].
      intros k Hk. apply occurrence_in_range in Hk; [|exact pat_not_empty].
      destruct Hk as [Hk _].
      apply (index_correct3 e (e + k) pat str Hindex pat_not_empty); [lia|exact Hk].
Qed.

(** every position the loop collects is an occurrence *)
Lemma matchPositions_sound fuel :
  forall e k,
    In k (matchPositions fuel str pat (StringIndexOf str pat e)) ->
    occurs_at pat str k.
Proof.
  induction fuel as [|fuel IH]; intros e k Hin; [destruct Hin|].
  unfold StringIndexOf in Hin. destruct (index e pat str) as [p|] eqn:Hindex.
  - cbn [matchPositions] in Hin. destruct Hin as [<-|Hin].
    + exact (index_correct1 _ _ _ _ Hindex).
    + exact (IH _ _ Hin).
  - destruct Hin.
Qed.

(** two occurrences of the pattern do not overlap *)
Hypothesis no_overlap :
  forall p k, occurs_at pat str p -> occurs_at pat str k -> p < k -> p + length pat <= k.

(** every occurrence is collected *)
Lemma matchPositions_complete fuel :
  forall e k,
    e <= k ->
    length str - e < fuel ->
    occurs_at pat str k ->
    In k (matchPositions fuel str pat (StringIndexOf str pat e)).
Proof.
  assert (Hpos : 0 < length pat) by (destruct pat; [contradiction|cbn; lia]).
  induction fuel as [|fuel IH]; intros e k He Hfuel Hocc; [lia|].
  unfold StringIndexOf. destruct (index e pat str) as [p|] eqn:Hindex.
  - assert (Hfirst := index_correct1 _ _ _ _ Hindex).
    assert (Hfit := @occurrence_fits pat str p pat_not_empty Hfirst).
    assert (Hge := index_from _ _ _ Hindex).
    cbn [matchPositions]. cbv zeta.
    replace (Nat.max 1 (length pat)) with (length pat) by lia.
    destruct (Nat.lt_trichotomy k p) as [Hlt|[Heq|Hgt]].
    + exfalso. exact (index_correct2 _ _ _ _ Hindex k He Hlt Hocc).
    + left. symmetry. exact Heq.
    + right. apply IH; [|lia|exact Hocc].
      apply no_overlap; assumption.
  - exfalso. exact (index_correct3 e k pat str Hindex pat_not_empty He Hocc).
Qed.

Lemma replaceAll_pieces :
  exists pieces,
    str = join pat pieces /\
    replaceAll str pat theme = join theme pieces /\
    Forall (free_of pat) pieces.
Proof.
  destruct (assemble_pieces (fuel := S (length str)) (e := 0) EmptyString) as
    (pieces & _ & Hjoin & Hasm & Hfree); [lia|lia|].
  rewrite Nat.sub_0_r, substring_whole in Hjoin.
  exists pieces. split; [exact Hjoin|]. split; [exact Hasm|exact Hfree].
Qed.

End ReplaceAllFacts.

Section ThemeImageProperties.
Import Theme.
Local Open Scope nat_scope.
Local Open Scope string_scope.

Lemma placeholder_not_empty : placeholder <> EmptyString.
Proof. discriminate. Qed.

(** The placeholder starts with the only [%] it has, so two of its
    occurrences cannot overlap. *)
Lemma placeholder_no_overlap str p k :
  occurs_at placeholder str p -> occurs_at placeholder str k ->
  p < k -> p + length placeholder <= k.
Proof.
  unfold occurs_at. intros Hp Hk Hlt.
  destruct (Nat.le_gt_cases (p + length placeholder) k) as [Hfar|Hnear]; [exact Hfar|].
  exfalso.
  assert (Hhead : get k str = Some "%"%char).
  { assert (H := substring_correct1 str k (length placeholder) 0 ltac:(cbn; lia)).
    rewrite Hk in H. cbn in H. symmetry. exact H. }
  assert (Hinner : get k str = get (k - p) placeholder).
  { assert (H := substring_correct1 str p (length placeholder) (k - p) ltac:(lia)).
    rewrite Hp in H. replace (k - p + p) with k in H by lia. symmetry. exact H. }
  rewrite Hhead in Hinner.
  assert (Hd : 0 < k - p < 9) by (cbn in Hnear; lia).
  destruct (k - p) as [|[|[|[|[|[|[|[|[|d]]]]]]]]]; try discriminate Hinner; lia.
Qed.

(** C7: [themeImage] cuts the path at every occurrence of [%(theme)s]
    and glues the pieces back with the active theme name in between, the
    pieces themselves unchanged; the positions it replaces are exactly
    the positions where the placeholder occurs; a path without the
    placeholder comes back as it is.  The theme name is the root
    interface's [activeTheme], or the resolved UI theme when that is
    missing or empty.  Theme names contain no [$]. *)
Theorem themeImage_replaces_every_placeholder root resolvedUITheme rawPath :
  dollar_free (enabledTheme root resolvedUITheme) = true ->
  (exists pieces,
      rawPath = join placeholder pieces /\
      themeImage root resolvedUITheme rawPath
        = join (enabledTheme root resolvedUITheme) pieces /\
      Forall (free_of placeholder) pieces) /\
  (forall k,
      occurs_at placeholder rawPath k <->
      In k (matchPositions (S (length rawPath)) rawPath placeholder
              (StringIndexOf rawPath placeholder 0))) /\
  (free_of placeholder rawPath -> themeImage root resolvedUITheme rawPath = rawPath) /\
  (forall t, root = Some (mkRoot (Some t)) -> t <> EmptyString ->
             enabledTheme root resolvedUITheme = t) /\
  (root = None \/ root = Some (mkRoot None) \/ root = Some (mkRoot (Some EmptyString)) ->
   enabledTheme root resolvedUITheme = resolvedUITheme).
Proof.
  intros Hliteral. split; [|split; [|split; [|split]]].
  - unfold themeImage. apply replaceAll_pieces; [exact placeholder_not_empty|exact Hliteral].
  - intros k. split.
    + intros Hocc. apply matchPositions_complete.
      * exact placeholder_not_empty.
      * intros p q. apply placeholder_no_overlap.
      * lia.
      * lia.
      * exact Hocc.
    + apply matchPositions_sound.
  - intros Hfree. unfold themeImage. apply replaceAll_untouched. exact Hfree.
  - intros t -> Ht. unfold enabledTheme. cbn. destruct t; [contradiction|reflexivity].
  - intros [ -> | [ -> | -> ] ]; reflexivity.
Qed.

End ThemeImageProperties.

Lemma themeImage_replaces_every_placeholder_witness :
  exists pieces,
    ThemeExamples.icon_path = Theme.join Theme.placeholder pieces /\
    Theme.themeImage ThemeExamples.dark_root "light" ThemeExamples.icon_path
      = Theme.join "dark" pieces /\
    Forall (Theme.free_of Theme.placeholder) pieces.
Proof.
  exact (proj1 (themeImage_replaces_every_placeholder
                  ThemeExamples.dark_root "light" ThemeExamples.icon_path eq_refl)).
Defined.


(** * Further properties of the elements *)

(** ** AKTimestamp: change detection, timers and frames *)
Section TimestampLifecycle.
Import Timestamp.

(** X1: [hasChanged] of [timestamp] reports no change exactly for two nulls,
    two undefineds, or two valid Dates of the same instant; an invalid Date
    always counts as changed, even against itself. *)
Theorem hasChanged_same_instant (value previousValue : PropertyValue) :
  hasChanged value previousValue = false <->
  (value = Undefined /\ previousValue = Undefined) \/
  (value = Null /\ previousValue = Null) \/
  (exists t, value = DateValue (JS.mkDate (Some t)) /\
             previousValue = DateValue (JS.mkDate (Some t))).
Proof.
  split.
  - destruct value as [| |[[x|]]], previousValue as [| |[[y|]]]; cbn;
      intros H; try discriminate H; auto.
    apply negb_false_iff, Z.eqb_eq in H. subst y. right. right. exists x. auto.
  - intros [[-> ->]|[[-> ->]|(t & -> & ->)]]; cbn; [reflexivity|reflexivity|].
    rewrite Z.eqb_refl. reflexivity.
Qed.

Lemma startInterval_by_schedule s b :
  startInterval s b =
    match schedule s b with
    | None => (s, stopInterval s b)
    | Some (cb, d) =>
        (set_interval_field (nextHandle b) s,
         mkBrowser (cleared s b ++ [mkTimer (nextHandle b) cb d])
                   (nextHandle b + 1) (visibilityState b) (now b))
    end.
Proof.
  unfold startInterval, schedule, cleared.
  destruct (timestamp s) as [ts|]; [|reflexivity].
  change (document_visible (stopInterval s b)) with (document_visible b).
  change (now (stopInterval s b)) with (now b).
  destruct (negb (refresh s) || negb (document_visible b) || negb (visible s));
    [reflexivity|].
  destruct (JS.geb (now b) (JS.sub (JS.getTime ts) 60000)
              && JS.leb (now b) (JS.add (JS.getTime ts) 60000)); reflexivity.
Qed.

Lemma filter_keeps_all {A} (f : A -> bool) l :
  Forall (fun x => f x = true) l -> filter f l = l.
Proof.
  induction 1 as [|x l Hx _ IH]; [reflexivity|]. cbn. rewrite Hx, IH. reflexivity.
Qed.

Lemma filter_twice {A} (f : A -> bool) l : filter f (filter f l) = filter f l.
Proof.
  apply filter_keeps_all. apply Forall_forall. intros x Hin.
  apply filter_In in Hin. apply Hin.
Qed.

Lemma cleared_fresh s b :
  handles_fresh b -> Forall (fun t => (handle t < nextHandle b)%Z) (cleared s b).
Proof.
  unfold handles_fresh, cleared, stopInterval, clearInterval. cbn. intros Hfresh.
  apply Forall_forall. intros t Hin. apply filter_In in Hin. destruct Hin as [Hin _].
  rewrite Forall_forall in Hfresh. apply Hfresh. exact Hin.
Qed.

(** the timers that [clearInterval] of a handle nobody holds leaves *)
Lemma clear_unheld h l :
  Forall (fun t => (handle t < h)%Z) l ->
  filter (fun t => negb (handle t =? h)%Z) l = l.
Proof.
  intros Hbelow. apply filter_keeps_all.
  apply Forall_impl with (2 := Hbelow). intros t Hlt.
  apply negb_true_iff, Z.eqb_neq. lia.
Qed.

Lemma schedule_stable s s' b b' :
  timestamp s' = timestamp s -> refresh s' = refresh s -> visible s' = visible s ->
  visibilityState b' = visibilityState b -> now b' = now b ->
  schedule s' b' = schedule s b.
Proof.
  intros Hts Hr Hv Hd Hn. unfold schedule, document_visible.
  rewrite Hts, Hr, Hv, Hd, Hn. reflexivity.
Qed.

(** the element's timers after [startInterval] was run on its own result *)
Lemma startInterval_again s b cb d :
  handles_fresh b ->
  schedule s b = Some (cb, d) ->
  timers (snd (startInterval (fst (startInterval s b)) (snd (startInterval s b)))) =
    cleared s b ++ [mkTimer (nextHandle b + 1) cb d].
Proof.
  intros Hfresh Hsched.
  rewrite (startInterval_by_schedule s b), Hsched. cbn [fst snd].
  rewrite startInterval_by_schedule.
  rewrite (@schedule_stable s (set_interval_field (nextHandle b) s) b
             (mkBrowser (cleared s b ++ [mkTimer (nextHandle b) cb d])
                        (nextHandle b + 1) (visibilityState b) (now b))
             eq_refl eq_refl eq_refl eq_refl eq_refl), Hsched.
  cbn [snd timers nextHandle]. f_equal.
  unfold cleared at 1. unfold stopInterval, clearInterval. cbn.
  rewrite filter_app. cbn. rewrite Z.eqb_refl. cbn. rewrite app_nil_r.
  apply clear_unheld. apply cleared_fresh. exact Hfresh.
Qed.

(** X2: Running [startInterval] again does not pile up intervals: with handles
    handed out in increasing order, a second run leaves the same callbacks
    and delays as the first, and handles stay fresh. *)
Theorem startInterval_does_not_accumulate s b :
  handles_fresh b ->
  handles_fresh (snd (startInterval s b)) /\
  map job (timers (snd (startInterval (fst (startInterval s b))
                                      (snd (startInterval s b)))))
    = map job (timers (snd (startInterval s b))).
Proof.
  intros Hfresh. split.
  - rewrite startInterval_by_schedule.
    destruct (schedule s b) as [[cb d]|]; cbn [snd].
    + unfold handles_fresh. cbn [timers nextHandle]. apply Forall_app. split.
      * apply Forall_impl with (2 := cleared_fresh s Hfresh). intros t Ht. lia.
      * constructor; [cbn; lia|constructor].
    + exact (cleared_fresh s Hfresh).
  - destruct (schedule s b) as [[cb d]|] eqn:Hsched.
    + rewrite (startInterval_again s Hfresh Hsched).
      rewrite (startInterval_by_schedule s b), Hsched. cbn [snd timers].
      rewrite !map_app. reflexivity.
    + rewrite (startInterval_by_schedule s b), Hsched. cbn [fst snd].
      rewrite startInterval_by_schedule.
      rewrite (@schedule_stable s s b (stopInterval s b)
                 eq_refl eq_refl eq_refl eq_refl eq_refl), Hsched.
      cbn [snd]. unfold stopInterval, clearInterval. cbn [timers].
      rewrite filter_twice. reflexivity.
Qed.

(** X3: After [disconnectedCallback] nothing of the element is left in the
    browser: the timers are those [startInterval] found minus the
    element's own, and the frame it had requested is no longer pending. *)
Theorem disconnect_releases s b id f :
  handles_fresh b ->
  timers (fst (disconnectedCallback (fst (startInterval s b)) id
                                    (snd (startInterval s b)) f))
    = cleared s b /\
  ~ In id (pending (snd (disconnectedCallback (fst (startInterval s b)) id
                                              (snd (startInterval s b)) f))).
Proof.
  intros Hfresh. split.
  - unfold disconnectedCallback. cbn [fst].
    rewrite startInterval_by_schedule.
    destruct (schedule s b) as [[cb d]|]; cbn [fst snd].
    + unfold stopInterval, clearInterval. cbn.
      rewrite filter_app. cbn. rewrite Z.eqb_refl. cbn. rewrite app_nil_r.
      apply clear_unheld. apply cleared_fresh. exact Hfresh.
    + unfold cleared, stopInterval, clearInterval. cbn [timers].
      apply filter_twice.
  - unfold disconnectedCallback, cancelAnimationFrame. cbn. intros Hin.
    apply filter_In in Hin. destruct Hin as [_ Hneq].
    rewrite Z.eqb_refl in Hneq. discriminate Hneq.
Qed.

Lemma updated_all_snoc changes c st :
  updated_all (changes ++ [c]) st = updated c (updated_all changes st).
Proof. unfold updated_all. rewrite fold_left_app. reflexivity. Qed.

(** what a run of [updated] calls leaves pending *)
Lemma updated_all_frames changes id f :
  frames_fresh f ->
  (existsb reschedules changes = false /\ updated_all changes (id, f) = (id, f)) \/
  (existsb reschedules changes = true /\
   pending (snd (updated_all changes (id, f))) =
     pending (cancelAnimationFrame id f) ++ [fst (updated_all changes (id, f))] /\
   (nextFrame f <= fst (updated_all changes (id, f))
    < nextFrame (snd (updated_all changes (id, f))))%Z).
Proof.
  intros Hfresh.
  induction changes as [|c changes IH] using rev_ind; [left; split; reflexivity|].
  rewrite updated_all_snoc, existsb_app. cbn [existsb]. rewrite orb_false_r.
  destruct (updated_all changes (id, f)) as [id' f'] eqn:Hrun. unfold updated.
  destruct (reschedules c) eqn:Hc.
  - right. rewrite orb_true_r. split; [reflexivity|].
    unfold requestAnimationFrame, cancelAnimationFrame. cbn [fst snd pending nextFrame].
    destruct IH as [[_ Hsame]|(_ & Hpending & Hbounds)].
    + inversion Hsame; subst. split; [reflexivity|lia].
    + cbn [fst snd] in Hpending, Hbounds. rewrite Hpending.
      split; [|lia]. f_equal.
      rewrite filter_app. cbn. rewrite Z.eqb_refl. cbn. rewrite app_nil_r.
      apply filter_keeps_all. apply Forall_forall. intros i Hin.
      unfold cancelAnimationFrame in Hin. cbn in Hin.
      apply filter_In in Hin. destruct Hin as [Hin _].
      unfold frames_fresh in Hfresh. rewrite Forall_forall in Hfresh.
      specialize (Hfresh i Hin). apply negb_true_iff, Z.eqb_neq. lia.
  - rewrite orb_false_r. exact IH.
Qed.

(** X4: Updates are debounced: however many [updated] calls see a relevant
    change before the next frame, exactly one frame stays requested for the
    element, in place of the one it held; calls without a relevant change
    leave the frames alone. *)
Theorem updated_keeps_one_frame changes id f :
  frames_fresh f ->
  (existsb reschedules changes = true ->
   pending (snd (updated_all changes (id, f))) =
     pending (cancelAnimationFrame id f) ++ [fst (updated_all changes (id, f))]) /\
  (existsb reschedules changes = false ->
   updated_all changes (id, f) = (id, f)).
Proof.
  intros Hfresh.
  destruct (updated_all_frames changes id Hfresh) as [[Hnone Hsame]|(Hsome & Hpending & _)].
  - split; [rewrite Hnone; discriminate|intros _; exact Hsame].
  - split; [intros _; exact Hpending|rewrite Hsome; discriminate].
Qed.

(** X5: A second tick that fires more than a minute away from the timestamp
    hands over to the minute interval: it requests an update, clears the
    element's interval and installs one of 60000 ms. *)
Theorem second_tick_hands_over s b ts m :
  visible s = true ->
  visibilityState b = DocVisible ->
  refresh s = true ->
  timestamp s = Some ts ->
  JS.getTime ts = Some m ->
  (60000 < Z.abs (now b - m))%Z ->
  tick (SecondTick (Some m)) s b =
    (set_interval_field (nextHandle b) s,
     mkBrowser (cleared s b ++ [mkTimer (nextHandle b) MinuteTick 60000])
               (nextHandle b + 1) (visibilityState b) (now b),
     1%nat).
Proof.
  intros Hv Hd Hr Hts Hm Hfar.
  assert (Hsched : schedule s b = Some (MinuteTick, 60000%Z)).
  { unfold schedule, document_visible. rewrite Hts, Hr, Hd, Hv, Hm. cbn.
    destruct (m - 60000 <=? now b)%Z eqn:Hlo; [|reflexivity].
    destruct (now b <=? m + 60000)%Z eqn:Hhi; [|reflexivity].
    apply Z.leb_le in Hlo, Hhi. lia. }
  unfold tick, document_visible. rewrite Hv. cbn [negb orb]. rewrite Hd at 1.
  cbn [negb].
  assert (Hout : JS.ltb (now b) (JS.sub (Some m) 60000)
                 || JS.gtb (now b) (JS.add (Some m) 60000) = true).
  { cbn. destruct (now b <? m - 60000)%Z eqn:Hlo; [reflexivity|].
    destruct (m + 60000 <? now b)%Z eqn:Hhi; [reflexivity|].
    apply Z.ltb_ge in Hlo, Hhi. lia. }
  rewrite Hout. rewrite startInterval_by_schedule, Hsched. reflexivity.
Qed.

End TimestampLifecycle.

Lemma updated_keeps_one_frame_witness :
  Timestamp.pending
    (snd (Timestamp.updated_all
            [Timestamp.mkChanged true false false; Timestamp.mkChanged false true false;
             Timestamp.mkChanged false false false]
            (4%Z, Timestamp.mkFrames [2%Z; 4%Z] 5)))
  = [2%Z; 6%Z].
Proof.
  assert (Hfresh : Timestamp.frames_fresh (Timestamp.mkFrames [2%Z; 4%Z] 5)).
  { repeat constructor. }
  rewrite (proj1 (updated_keeps_one_frame
                    [Timestamp.mkChanged true false false;
                     Timestamp.mkChanged false true false;
                     Timestamp.mkChanged false false false] 4 Hfresh) eq_refl).
  reflexivity.
Defined.

Lemma startInterval_does_not_accumulate_witness :
  map Timestamp.job
    (Timestamp.timers
       (snd (Timestamp.startInterval
               (fst (Timestamp.startInterval TimestampExamples.recent
                       TimestampExamples.browser))
               (snd (Timestamp.startInterval TimestampExamples.recent
                       TimestampExamples.browser)))))
  = [(Timestamp.MinuteTick, 60000%Z);
     (Timestamp.SecondTick (Some 1700000000000%Z), 1000%Z)].
Proof.
  assert (Hfresh : Timestamp.handles_fresh TimestampExamples.browser).
  { repeat constructor. }
  rewrite (proj2 (startInterval_does_not_accumulate TimestampExamples.recent Hfresh)).
  reflexivity.
Defined.

Lemma disconnect_releases_witness :
  Timestamp.timers
    (fst (Timestamp.disconnectedCallback
            (fst (Timestamp.startInterval TimestampExamples.recent
                    TimestampExamples.browser))
            4
            (snd (Timestamp.startInterval TimestampExamples.recent
                    TimestampExamples.browser))
            (Timestamp.mkFrames [2%Z; 4%Z] 5)))
  = [Timestamp.mkTimer 3 Timestamp.MinuteTick 60000].
Proof.
  assert (Hfresh : Timestamp.handles_fresh TimestampExamples.browser).
  { repeat constructor. }
  rewrite (proj1 (disconnect_releases TimestampExamples.recent 4
                    (Timestamp.mkFrames [2%Z; 4%Z] 5) Hfresh)).
  reflexivity.
Defined.

Lemma second_tick_hands_over_witness :
  Timestamp.tick (Timestamp.SecondTick (Some 1700000000000%Z))
    TimestampExamples.recent TimestampExamples.an_hour_later
  = (Timestamp.set_interval_field 8 TimestampExamples.recent,
     Timestamp.mkBrowser [Timestamp.mkTimer 8 Timestamp.MinuteTick 60000]
       9 Timestamp.DocVisible 1700003600000,
     1%nat).
Proof.
  apply (@second_tick_hands_over TimestampExamples.recent TimestampExamples.an_hour_later
           (JS.mkDate (Some 1700000000000%Z)) 1700000000000%Z);
    reflexivity.
Defined.

(** ** AKTimestamp: what the setter stores for unusual values *)
Section TimestampEdgeValues.
Import Timestamp.

Variable Date_parse : string -> JS.Number.
Variable formatElapsedTime : JS.Date -> string.
Variables toISOString toLocaleString : Z -> string.
Variable ifPresent : bool -> string -> option string.

Local Abbreviation render :=
  (Timestamp.render formatElapsedTime toISOString toLocaleString ifPresent).
Local Abbreviation set_timestamp := (Timestamp.set_timestamp Date_parse).

Lemma beyond_range_clips (q : Q) :
  (8640000000000000 # 1 < Qabs q)%Q ->
  JS.number_truthy (JS.Finite q) = true /\ JS.TimeClip (JS.Finite q) = None.
Proof.
  intros Hbig. split.
  - cbn. apply negb_true_iff, Z.eqb_neq. intros Hzero.
    destruct q as [n d]. cbn in Hzero. subst n.
    unfold Qlt in Hbig. cbn in Hbig. lia.
  - cbn. destruct (Qle_bool (Qabs q) (8640000000000000 # 1)) eqn:Hle; [|reflexivity].
    apply Qle_bool_iff in Hle. exfalso. exact (Qlt_not_le _ _ Hbig Hle).
Qed.

(** X6: A value that is truthy but names no instant is stored as an invalid
    Date, and [render] then throws instead of showing the placeholder: a
    non-empty string [Date.parse] cannot read, an infinity, or a number
    beyond 8.64e15 ms.  For such a timestamp [startInterval] picks the
    60-second interval. *)
Theorem invalid_date_makes_render_throw :
  (forall str s,
      str <> EmptyString -> JS.TimeClip (Date_parse str) = None ->
      timestamp (set_timestamp (InString str) s) = Some (JS.mkDate None) /\
      render (set_timestamp (InString str) s) = Throws) /\
  (forall negative s,
      render (set_timestamp (InNumber (JS.Infinity negative)) s) = Throws) /\
  (forall q s,
      (8640000000000000 # 1 < Qabs q)%Q ->
      render (set_timestamp (InNumber (JS.Finite q)) s) = Throws) /\
  (forall s b d,
      timestamp s = Some d -> JS.getTime d = None ->
      refresh s = true -> visible s = true -> visibilityState b = DocVisible ->
      schedule s b = Some (MinuteTick, 60000%Z)).
Proof.
  split; [|split; [|split]].
  - intros str s Hstr Hparse. unfold Timestamp.set_timestamp, Timestamp.render.
    destruct str as [|c str]; [contradiction|]. cbn [truthy JS.string_truthy new_Date timestamp].
    rewrite Hparse. split; reflexivity.
  - intros negative s. reflexivity.
  - intros q s Hbig. destruct (@beyond_range_clips q Hbig) as [Htruthy Hclip].
    unfold Timestamp.set_timestamp, Timestamp.render. cbn [truthy new_Date timestamp].
    rewrite Htruthy. cbn [timestamp]. rewrite Hclip. reflexivity.
  - intros s b d Hts Hinvalid Hr Hv Hd.
    unfold schedule, document_visible. rewrite Hts, Hr, Hv, Hd, Hinvalid. reflexivity.
Qed.

(** X7: A non-zero number of less than one millisecond is truthy, so the setter
    stores a Date for it, but the Date is the epoch and [render] shows the
    placeholder. *)
Theorem sub_millisecond_is_epoch (q : Q) s :
  ~ (q == 0)%Q ->
  (Qabs q < 1)%Q ->
  timestamp (set_timestamp (InNumber (JS.Finite q)) s) = Some (JS.mkDate (Some 0%Z)) /\
  render (set_timestamp (InNumber (JS.Finite q)) s) = Returns none_placeholder.
Proof.
  intros Hnonzero Hsmall.
  destruct q as [n d].
  assert (Hn : n <> 0%Z).
  { intros ->. apply Hnonzero. reflexivity. }
  assert (Habs : (Z.abs n < Zpos d)%Z).
  { unfold Qlt in Hsmall. cbn in Hsmall. lia. }
  assert (Htruthy : JS.number_truthy (JS.Finite (n # d)) = true).
  { cbn. apply negb_true_iff, Z.eqb_neq. exact Hn. }
  assert (Hclip : JS.TimeClip (JS.Finite (n # d)) = Some 0%Z).
  { cbn [JS.TimeClip Qnum Qden].
    assert (Hquot : (n ÷ Zpos d)%Z = 0%Z).
    { apply Z.quot_small_iff; [discriminate|]. cbn [Z.abs] in *. lia. }
    rewrite Hquot.
    assert (Hle : Qle_bool (Qabs (n # d)) (8640000000000000 # 1) = true).
    { apply Qle_bool_iff. unfold Qle. cbn. lia. }
    rewrite Hle. reflexivity. }
  unfold Timestamp.set_timestamp, Timestamp.render. cbn [truthy new_Date timestamp].
  rewrite Htruthy. cbn [timestamp]. rewrite Hclip. split; reflexivity.
Qed.

End TimestampEdgeValues.

Lemma invalid_date_makes_render_throw_witness :
  Timestamp.render TimestampExamples.describe TimestampExamples.iso TimestampExamples.iso
    TimestampExamples.present
    (Timestamp.set_timestamp TimestampExamples.parse_nothing
       (Timestamp.InString "soon") TimestampExamples.recent)
  = Timestamp.Throws.
Proof.
  destruct (invalid_date_makes_render_throw
              TimestampExamples.parse_nothing TimestampExamples.describe
              TimestampExamples.iso TimestampExamples.iso TimestampExamples.present)
    as (Hstring & _).
  apply Hstring; [discriminate|reflexivity].
Defined.

Lemma sub_millisecond_is_epoch_witness :
  Timestamp.render TimestampExamples.describe TimestampExamples.iso TimestampExamples.iso
    TimestampExamples.present
    (Timestamp.set_timestamp TimestampExamples.parse_nothing
       (Timestamp.InNumber (JS.Finite (1 # 2))) TimestampExamples.recent)
  = Timestamp.Returns Timestamp.none_placeholder.
Proof.
  apply (@sub_millisecond_is_epoch TimestampExamples.parse_nothing
           TimestampExamples.describe TimestampExamples.iso TimestampExamples.iso
           TimestampExamples.present (1 # 2) TimestampExamples.recent).
  - discriminate.
  - reflexivity.
Defined.

(** ** ModalButton and ModalForm: the dialog and the slot *)
Section ModalLifecycle.
Import ModalForm.

(** X8: [open] reads back what was assigned only while the dialog element
    exists: an assignment before the dialog is rendered changes nothing and
    [open] stays false.  Neither the setter, nor [show], nor [close]
    touches [loading], [locked] or [closeAfterSuccessfulSubmit]; after
    [close] the modal is never open. *)
Theorem open_follows_the_dialog (value : bool) (s : State) :
  open (props (set_open value s)) =
    match dialog (props s) with
    | Some _ => value
    | None => false
    end /\
  (dialog (props s) = None -> props (set_open value s) = props s) /\
  open (props (close s)) = false /\
  open (props (close (show s))) = false /\
  (loading (props (set_open value s)) = loading (props s) /\
   locked (props (set_open value s)) = locked (props s) /\
   closeAfterSuccessfulSubmit (props (set_open value s))
     = closeAfterSuccessfulSubmit (props s)) /\
  (loading (props (close s)) = loading (props s) /\
   locked (props (close s)) = locked (props s) /\
   closeAfterSuccessfulSubmit (props (close s))
     = closeAfterSuccessfulSubmit (props s)) /\
  (loading (props (show s)) = loading (props s) /\
   locked (props (show s)) = locked (props s) /\
   closeAfterSuccessfulSubmit (props (show s))
     = closeAfterSuccessfulSubmit (props s)).
Proof.
  destruct s as [[c l k [o|]] t]; destruct value; cbn; repeat split;
    try reflexivity; discriminate.
Qed.

(** X9: A mousedown closes the modal only when the modal is open and the event
    hit the dialog element itself; it never opens a modal, and a mousedown
    on the dialog's content leaves the element as it is. *)
Theorem backdrop_closes_only_on_dialog (onDialogItself : bool) (s : State) :
  open (props (backdropListener onDialogItself s)) =
    open (props s) && negb onDialogItself /\
  (onDialogItself = false -> backdropListener onDialogItself s = s) /\
  (open (props s) = false -> backdropListener onDialogItself s = s) /\
  (open (props s) = true -> onDialogItself = true ->
   trace (backdropListener onDialogItself s) = trace s ++ [SetOpen false; DialogClose]).
Proof.
  destruct s as [[c l k [[|]|]] t]; destruct onDialogItself; cbn;
    repeat split; try reflexivity; try discriminate.
  intros _ _. rewrite <- app_assoc. reflexivity.
Qed.

Variable Unknown : Type.
Variable EVENT_REFRESH : string.
Variable msg : string -> string.

Local Abbreviation run := (@run_confirm Unknown EVENT_REFRESH msg).

Lemma findForm_skips (before after : list (Element Unknown)) :
  Forall (fun e => instanceofForm e = None) before ->
  findForm (before ++ after) = findForm after.
Proof.
  induction 1 as [|e before He _ IH]; [reflexivity|].
  cbn. rewrite He. exact IH.
Qed.

(** X10: Without a Form among the slotted elements, and so also while the slot
    is not rendered, [#confirm] rejects with the "No form found" error and
    does nothing else: no flag is written and nothing is called. *)
Theorem confirm_without_form_rejects (slotted : list (Element Unknown)) (p : Props) :
  (Forall (fun e => instanceofForm e = None) slotted ->
   run slotted p =
     (mkState p [], Rejected (JsError Unknown (msg "No form found within the default slot")))) /\
  run (defaultSlotElements None) p =
    (mkState p [], Rejected (JsError Unknown (msg "No form found within the default slot"))).
Proof.
  split; [|reflexivity].
  intros Hnone. unfold run_confirm, confirm.
  rewrite <- (app_nil_r slotted), (findForm_skips [] Hnone). reflexivity.
Qed.

(** X11: [#confirm] works on the first Form in slot order: elements that are
    not Forms before it, and anything after it, further Forms included,
    make no difference. *)
Theorem confirm_uses_first_form (before after : list (Element Unknown)) form (p : Props) :
  Forall (fun e => instanceofForm e = None) before ->
  run (before ++ FormElement form :: after) p = run [FormElement form] p.
Proof.
  intros Hnone. unfold run_confirm, confirm.
  rewrite (findForm_skips (FormElement form :: after) Hnone). reflexivity.
Qed.

End ModalLifecycle.

Lemma backdrop_closes_only_on_dialog_witness :
  ModalForm.trace
    (ModalForm.backdropListener true (ModalForm.mkState ModalFormExamples.open_modal []))
  = [ModalForm.SetOpen false; ModalForm.DialogClose].
Proof.
  exact (proj2 (proj2 (proj2 (backdrop_closes_only_on_dialog true
            (ModalForm.mkState ModalFormExamples.open_modal [])))) eq_refl eq_refl).
Defined.

Lemma confirm_without_form_rejects_witness :
  ModalForm.run_confirm ModalFormExamples.refresh_event ModalFormExamples.localized
    [ModalForm.OtherElement nat; ModalForm.OtherElement nat] ModalFormExamples.open_modal
  = (ModalForm.mkState ModalFormExamples.open_modal [],
     Rejected (ModalForm.JsError nat "No form found within the default slot")).
Proof.
  apply (proj1 (confirm_without_form_rejects ModalFormExamples.refresh_event
                  ModalFormExamples.localized
                  [ModalForm.OtherElement nat; ModalForm.OtherElement nat]
                  ModalFormExamples.open_modal)).
  repeat constructor.
Defined.

Lemma confirm_uses_first_form_witness :
  ModalForm.run_confirm ModalFormExamples.refresh_event ModalFormExamples.localized
    ([ModalForm.OtherElement nat]
       ++ ModalForm.FormElement ModalFormExamples.invalid_form
       :: [ModalForm.FormElement ModalFormExamples.accepted_form])
    ModalFormExamples.open_modal
  = ModalForm.run_confirm ModalFormExamples.refresh_event ModalFormExamples.localized
      [ModalForm.FormElement ModalFormExamples.invalid_form] ModalFormExamples.open_modal.
Proof.
  apply confirm_uses_first_form. repeat constructor.
Defined.

(** ** intersectionObserver: batches, [once], and the observer's life *)
Section ObserverLifecycle.
Import IntersectionObserver.

Lemma on_entry_trace options s e :
  trace (on_entry options s e) =
    trace s
      ++ (if Bool.eqb (get_key s) e then [] else change_events options (get_key s) e)
      ++ once_events options e.
Proof.
  destruct (Bool.bool_dec e (get_key s)) as [Hsame|Hdiff].
  - rewrite (on_entry_unchanged options s Hsame). rewrite <- Hsame, Bool.eqb_reflx.
    destruct (once options && e); reflexivity.
  - rewrite (on_entry_changed options s Hdiff).
    assert (Htest : Bool.eqb (get_key s) e = false).
    { destruct (Bool.eqb (get_key s) e) eqn:Heq; [|reflexivity].
      apply Bool.eqb_prop in Heq. congruence. }
    rewrite Htest. destruct (once options && e); reflexivity.
Qed.

Lemma on_entry_value options s e : get_key (on_entry options s e) = e.
Proof.
  destruct s as [[[|]|] updated registered events];
    destruct e, (once options) eqn:Honce, (hasOnIntersection options) eqn:Hcb;
    unfold on_entry, get_key; cbn; rewrite ?Honce, ?Hcb; reflexivity.
Qed.

Lemma observer_callback_trace options entries :
  forall s,
    trace (observer_callback options entries s) =
      trace s ++ batch_events options (get_key s) entries.
Proof.
  unfold observer_callback.
  induction entries as [|e rest IH]; intros s; cbn [fold_left batch_events].
  - rewrite app_nil_r. reflexivity.
  - rewrite IH, on_entry_trace, on_entry_value. rewrite <- !app_assoc. reflexivity.
Qed.

Lemma filter_change_events options current e :
  hasOnIntersection options = true ->
  filter is_OnIntersection (change_events options current e) = [OnIntersection e].
Proof. intros Hcb. unfold change_events. rewrite Hcb. reflexivity. Qed.

Lemma filter_once_events options e :
  filter is_OnIntersection (once_events options e) = [].
Proof. unfold once_events. destruct (once options && e); reflexivity. Qed.

(** X13: Over a batch of entries [onIntersection] is called once per change and
    in order: with the values of the batch that differ from the value before
    them, starting from the property's current value.  Entries that repeat
    the current value are not reported. *)
Theorem onIntersection_once_per_change options entries s :
  hasOnIntersection options = true ->
  filter is_OnIntersection (appended s (observer_callback options entries s)) =
    map OnIntersection (changes (get_key s) entries).
Proof.
  intros Hcb. unfold appended.
  rewrite observer_callback_trace, skipn_own_length.
  generalize (get_key s) as current.
  induction entries as [|e rest IH]; intros current; [reflexivity|].
  cbn [batch_events changes]. rewrite !filter_app, filter_once_events, IH.
  destruct (Bool.eqb current e); [reflexivity|].
  rewrite filter_change_events by exact Hcb. reflexivity.
Qed.

Lemma on_entry_registration options s e :
  inObserverMap (on_entry options s e) =
    if once options && e then false else inObserverMap s.
Proof.
  destruct (Bool.bool_dec e (get_key s)) as [Hsame|Hdiff].
  - rewrite (on_entry_unchanged options s Hsame).
    destruct (once options && e); reflexivity.
  - rewrite (on_entry_changed options s Hdiff).
    destruct (once options && e); reflexivity.
Qed.

(** X14: With [once], a batch that reports an intersection disconnects the
    observer and drops it from the observer map; without [once], or while
    nothing intersects, entries never disconnect the observer and leave the
    map alone. *)
Theorem once_disconnects_on_first_intersection options entries s :
  (once options = true -> In true entries ->
   inObserverMap (observer_callback options entries s) = false /\
   In ObserverDisconnect (appended s (observer_callback options entries s))) /\
  ((once options = false \/ ~ In true entries) ->
   inObserverMap (observer_callback options entries s) = inObserverMap s /\
   ~ In ObserverDisconnect (appended s (observer_callback options entries s))).
Proof.
  unfold appended. rewrite observer_callback_trace, skipn_own_length. split.
  - intros Honce Hin. split.
    + unfold observer_callback. revert s.
      assert (Hstays : forall l s0, inObserverMap s0 = false ->
                inObserverMap (fold_left (on_entry options) l s0) = false).
      { induction l as [|x l IHl]; intros s0 Hs0; [exact Hs0|].
        cbn. apply IHl. rewrite on_entry_registration, Hs0.
        destruct (once options && x); reflexivity. }
      induction entries as [|e rest IH]; intros s; [destruct Hin|].
      cbn [fold_left]. destruct Hin as [->|Hin].
      * apply Hstays. rewrite on_entry_registration, Honce. reflexivity.
      * apply IH. exact Hin.
    + generalize (get_key s) as current.
      induction entries as [|e rest IH]; intros current; [destruct Hin|].
      cbn [batch_events]. apply in_or_app. right. apply in_or_app.
      destruct Hin as [->|Hin].
      * left. unfold once_events. rewrite Honce. left. reflexivity.
      * right. apply IH. exact Hin.
  - intros Hquiet.
    assert (Hnever : forall e, In e entries -> once options && e = false).
    { intros e He. destruct Hquiet as [Honce|Hnone]; [rewrite Honce; reflexivity|].
      destruct e; [contradiction|apply andb_false_r]. }
    clear Hquiet. split.
    + unfold observer_callback. revert s.
      induction entries as [|e rest IH]; intros s; [reflexivity|].
      cbn [fold_left]. rewrite IH by (intros x Hx; apply Hnever; right; exact Hx).
      rewrite on_entry_registration, (Hnever e) by (left; reflexivity). reflexivity.
    + generalize (get_key s) as current.
      induction entries as [|e rest IH]; intros current Hin; [destruct Hin|].
      cbn [batch_events] in Hin.
      apply in_app_or in Hin. destruct Hin as [Hin|Hin].
      * destruct (Bool.eqb current e); [destruct Hin|].
        unfold change_events in Hin. destruct (hasOnIntersection options); cbn in Hin;
          repeat (destruct Hin as [Hin|Hin]; try discriminate Hin); contradiction.
      * apply in_app_or in Hin. destruct Hin as [Hin|Hin].
        -- unfold once_events in Hin. rewrite (Hnever e) in Hin by (left; reflexivity).
           destruct Hin.
        -- apply (IH (fun x Hx => Hnever x (or_intror Hx)) e). exact Hin.
Qed.

(** X15: [disconnectedCallback] disconnects the observer exactly when the
    element still has one in the observer map, and always leaves the map
    without it: after a connect it disconnects once, and a second
    disconnect, or one after [once] already fired, disconnects nothing. *)
Theorem disconnect_cleans_up_once (s : State) :
  inObserverMap (disconnectedCallback s) = false /\
  appended s (disconnectedCallback s) =
    (if inObserverMap s
     then [OriginalDisconnectedCallback; ObserverDisconnect]
     else [OriginalDisconnectedCallback]) /\
  appended (connectedCallback s) (disconnectedCallback (connectedCallback s)) =
    [OriginalDisconnectedCallback; ObserverDisconnect] /\
  appended (disconnectedCallback s) (disconnectedCallback (disconnectedCallback s)) =
    [OriginalDisconnectedCallback] /\
  slot (disconnectedCallback s) = slot s.
Proof.
  assert (Hone : forall s0,
             appended s0 (disconnectedCallback s0) =
               (if inObserverMap s0
                then [OriginalDisconnectedCallback; ObserverDisconnect]
                else [OriginalDisconnectedCallback])).
  { intros s0. unfold appended, disconnectedCallback. cbn.
    destruct (inObserverMap s0); cbn.
    - change (trace s0 ++ [OriginalDisconnectedCallback]) with
        (trace s0 ++ [OriginalDisconnectedCallback]).
      rewrite <- app_assoc. apply skipn_own_length.
    - apply skipn_own_length. }
  assert (Hgone : forall s0, inObserverMap (disconnectedCallback s0) = false).
  { intros s0. unfold disconnectedCallback. cbn.
    destruct (inObserverMap s0) eqn:Hreg; cbn; [reflexivity|exact Hreg]. }
  split; [apply Hgone|]. split; [apply Hone|]. split; [|split].
  - rewrite Hone. unfold connectedCallback. cbn. destruct (hasUpdated s); reflexivity.
  - rewrite Hone, Hgone. reflexivity.
  - unfold disconnectedCallback. cbn. destruct (inObserverMap s); reflexivity.
Qed.

Lemma observed_callback_calls options entries :
  hasOnIntersection options = true ->
  forall o,
    filter is_OnIntersection (calls (observed_callback options entries o)) =
      filter is_OnIntersection (calls o) ++ map OnIntersection entries.
Proof.
  intros Hcb. unfold observed_callback.
  induction entries as [|e rest IH]; intros o; cbn [fold_left map].
  - rewrite app_nil_r. reflexivity.
  - rewrite IH. unfold observed_entry. rewrite Hcb.
    destruct (once options && e); cbn [calls];
      rewrite ?filter_app; cbn; rewrite ?app_nil_r, <- ?app_assoc; reflexivity.
Qed.

(** X16: [observeElement] reports every entry: its callback is called with each
    entry's value in order, repeats included, unlike the decorator's; once
    the cleanup function has run the observer is disconnected. *)
Theorem observeElement_reports_every_entry options entries :
  hasOnIntersection options = true ->
  filter is_OnIntersection (calls (observed_callback options entries observeElement)) =
    map OnIntersection entries /\
  connected (cleanup (observed_callback options entries observeElement)) = false.
Proof.
  intros Hcb. split; [|reflexivity].
  rewrite observed_callback_calls by exact Hcb. reflexivity.
Qed.

End ObserverLifecycle.

Lemma onIntersection_once_per_change_witness :
  filter IntersectionObserver.is_OnIntersection
    (IntersectionObserver.appended IntersectionObserverExamples.offscreen
       (IntersectionObserver.observer_callback IntersectionObserverExamples.with_callback
          [false; true; true; false] IntersectionObserverExamples.offscreen))
  = [IntersectionObserver.OnIntersection true; IntersectionObserver.OnIntersection false].
Proof.
  exact (onIntersection_once_per_change IntersectionObserverExamples.with_callback
           [false; true; true; false] IntersectionObserverExamples.offscreen eq_refl).
Defined.

Lemma once_disconnects_on_first_intersection_witness :
  IntersectionObserver.inObserverMap
    (IntersectionObserver.observer_callback (IntersectionObserver.mkOptions true false)
       [false; true] IntersectionObserverExamples.offscreen) = false.
Proof.
  apply (proj1 (once_disconnects_on_first_intersection
                  (IntersectionObserver.mkOptions true false) [false; true]
                  IntersectionObserverExamples.offscreen)).
  - reflexivity.
  - right. left. reflexivity.
Defined.

Lemma observeElement_reports_every_entry_witness :
  filter IntersectionObserver.is_OnIntersection
    (IntersectionObserver.calls
       (IntersectionObserver.observed_callback IntersectionObserverExamples.with_callback
          [false; false; true] IntersectionObserver.observeElement))
  = [IntersectionObserver.OnIntersection false; IntersectionObserver.OnIntersection false;
     IntersectionObserver.OnIntersection true].
Proof.
  exact (proj1 (observeElement_reports_every_entry
                  IntersectionObserverExamples.with_callback [false; false; true] eq_refl)).
Defined.

(** ** ModelForm: when it loads and what a refresh leaves *)
Section ModelFormLifecycle.
Import ModelForm.

Variables T Unknown ErrorProp : Type.
Variable parseAPIResponseError : Unknown -> ErrorProp.
Variable pluckErrorDetail : ErrorProp -> string.
Variable msg : string -> string.

Local Abbreviation Props := (ModelForm.Props T ErrorProp).
Local Abbreviation State := (ModelForm.State T ErrorProp).
Local Abbreviation Loader := (ModelForm.Loader T Unknown ErrorProp).
Local Abbreviation run := (@run_refresh T Unknown ErrorProp parseAPIResponseError).
Local Abbreviation refresh := (@ModelForm.refresh T Unknown ErrorProp parseAPIResponseError).
Local Abbreviation updated := (@ModelForm.updated T Unknown ErrorProp parseAPIResponseError).
Local Abbreviation render := (@ModelForm.render T ErrorProp pluckErrorDetail msg).

(** X17: [updated] starts a refresh exactly when the form went from hidden to
    visible; when it became hidden, stayed as it was, or [visible] is not
    among the changed properties, nothing is loaded and the form is left
    alone. *)
Theorem updated_refreshes_on_becoming_visible (l : Loader) previous (s : State) :
  (previous = Some false -> visible (props s) = true ->
   updated l previous s = fst (refresh l s)) /\
  ((previous <> Some false \/ visible (props s) = false) ->
   updated l previous s = s).
Proof.
  unfold ModelForm.updated. split.
  - intros -> Hv. rewrite Hv. reflexivity.
  - intros Hquiet. destruct previous as [[|]|]; [| |reflexivity].
    + destruct (visible (props s)); reflexivity.
    + destruct Hquiet as [Hprev|Hv]; [congruence|]. rewrite Hv. reflexivity.
Qed.

(** X18: A refresh that succeeds never writes [error]: the error of an earlier
    failed refresh stays, and a visible form keeps rendering it instead of
    the freshly loaded instance.  Only without an old error does the
    visible form render itself. *)
Theorem successful_refresh_keeps_old_error (l : Loader) (p : Props) i q :
  pk_missing p = false ->
  Succeeds l p i q ->
  error (props (fst (run l p))) = error q /\
  instance (props (fst (run l p))) = i /\
  forallb (fun e => negb (is_SetError e)) (trace (fst (run l p))) = true /\
  (forall e, visible q = true -> error q = Some e ->
             render (props (fst (run l p))) =
               EmptyStateError (msg "Failed to fetch model.") (pluckErrorDetail e)) /\
  (visible q = true -> error q = None ->
   render (props (fst (run l p))) = FormRender).
Proof.
  intros Hpresent Hok.
  assert (Hrun : exists events,
             run l p = (mkState (mkProps (visibleSlot q) (instancePk q) i (error q) false)
                                events, Resolved tt) /\
             forallb (fun e => negb (is_SetError e)) events = true).
  { destruct Hok as [q u Hload Hpk|p1 u q i Hload Hpk Hinstance].
    - rewrite (@run_pk_cleared T Unknown ErrorProp parseAPIResponseError l p q u
                 Hpresent Hload Hpk).
      eexists. split; [reflexivity|].
      unfold load_events. destruct (load l); reflexivity.
    - rewrite (@run_instance_loaded T Unknown ErrorProp parseAPIResponseError
                 l p p1 u q i Hpresent Hload Hpk Hinstance).
      eexists. split; [reflexivity|].
      unfold load_events. destruct (load l); reflexivity. }
  destruct Hrun as (events & -> & Hquiet). cbn [fst props trace error instance].
  split; [reflexivity|]. split; [reflexivity|]. split; [exact Hquiet|]. split.
  - intros e Hv He. unfold ModelForm.render, ModelForm.renderError, visible in *.
    cbn. rewrite Hv, He. reflexivity.
  - intros Hv He. unfold ModelForm.render, visible in *. cbn. rewrite Hv, He. reflexivity.
Qed.

(** X19: A refresh that fails never writes [instance]: the instance loaded
    before stays in place next to the new error. *)
Theorem failed_refresh_keeps_instance (l : Loader) (p : Props) e q :
  pk_missing p = false ->
  Fails l p e q ->
  instance (props (fst (run l p))) = instance q /\
  forallb (fun ev => negb (is_SetInstance ev)) (trace (fst (run l p))) = true.
Proof.
  intros Hpresent Hfails.
  destruct Hfails as [q e Hload|p1 u q e Hload Hpk Hinstance].
  - rewrite (@run_load_rejects T Unknown ErrorProp parseAPIResponseError l p q e
               Hpresent Hload).
    split; [reflexivity|]. cbn [fst trace].
    unfold load_events. destruct (load l); reflexivity.
  - rewrite (@run_loadInstance_rejects T Unknown ErrorProp parseAPIResponseError
               l p p1 u q e Hpresent Hload Hpk Hinstance).
    split; [reflexivity|]. cbn [fst trace].
    unfold load_events. destruct (load l); reflexivity.
Qed.

End ModelFormLifecycle.

Lemma updated_refreshes_on_becoming_visible_witness :
  ModelForm.trace
    (ModelForm.updated ModelFormExamples.parse ModelFormExamples.answering (Some false)
       (ModelForm.mkState ModelFormExamples.bound_to_zero []))
  = [ModelForm.SetLoading nat string true;
     ModelForm.CallLoadInstance nat string (ModelForm.PkNumber (JS.Finite 0));
     ModelForm.SetInstance string (Some 7%nat);
     ModelForm.SetLoading nat string false;
     ModelForm.RequestUpdate nat string].
Proof.
  rewrite (proj1 (updated_refreshes_on_becoming_visible ModelFormExamples.parse
                    ModelFormExamples.answering (Some false)
                    (ModelForm.mkState ModelFormExamples.bound_to_zero []))
                 eq_refl eq_refl).
  reflexivity.
Defined.

Lemma successful_refresh_keeps_old_error_witness :
  ModelForm.render ModelFormExamples.pluck ModelFormExamples.localized
    (ModelForm.props
       (fst (ModelForm.run_refresh ModelFormExamples.parse ModelFormExamples.answering
               ModelFormExamples.failed_before)))
  = ModelForm.EmptyStateError "Failed to fetch model." "request failed".
Proof.
  destruct (@successful_refresh_keeps_old_error nat nat string ModelFormExamples.parse
              ModelFormExamples.pluck ModelFormExamples.localized
              ModelFormExamples.answering ModelFormExamples.failed_before
              (Some 7%nat) (ModelForm.loading_set ModelFormExamples.failed_before)
              eq_refl
              (ModelForm.instance_loaded ModelFormExamples.answering
                 ModelFormExamples.failed_before (u := tt) eq_refl eq_refl eq_refl))
    as (_ & _ & _ & Hstale & _).
  exact (Hstale "request failed"%string eq_refl eq_refl).
Defined.

Lemma failed_refresh_keeps_instance_witness :
  ModelForm.instance
    (ModelForm.props
       (fst (ModelForm.run_refresh ModelFormExamples.parse ModelFormExamples.refused
               ModelFormExamples.loaded_before)))
  = Some 3%nat.
Proof.
  exact (proj1 (@failed_refresh_keeps_instance nat nat string ModelFormExamples.parse
                  ModelFormExamples.refused ModelFormExamples.loaded_before
                  404%nat (ModelForm.loading_set ModelFormExamples.loaded_before)
                  eq_refl
                  (ModelForm.loadInstance_rejects ModelFormExamples.refused
                     ModelFormExamples.loaded_before (u := tt) eq_refl eq_refl eq_refl))).
Defined.

(** ** isDefaultAvatar *)
Section AvatarProperties.
Import Theme.
Local Open Scope nat_scope.
Local Open Scope string_scope.

Lemma length_of_append (a b : string) : length (a ++ b) = length a + length b.
Proof. induction a as [|c a IH]; [reflexivity|]. cbn. rewrite IH. reflexivity. Qed.

Lemma substring_past_prefix (a b : string) :
  substring (length a) (length b) (a ++ b) = b.
Proof.
  induction a as [|c a IH]; [apply substring_whole|]. cbn. exact IH.
Qed.

Lemma endsWith_suffix (str searchString : string) :
  endsWith str searchString = true <-> exists before, str = before ++ searchString.
Proof.
  unfold endsWith. split.
  - destruct (Nat.ltb (length str) (length searchString)) eqn:Hshort; [discriminate|].
    apply Nat.ltb_ge in Hshort. intros Heq. apply String.eqb_eq in Heq.
    exists (substring 0 (length str - length searchString) str).
    assert (Hsplit := substring_split str 0 (length str - length searchString)
                        (length searchString)).
    cbn [Nat.add] in Hsplit.
    replace (length str - length searchString + length searchString)
      with (length str) in Hsplit by lia.
    rewrite substring_whole, Heq in Hsplit. exact Hsplit.
  - intros (before & ->). rewrite length_of_append.
    assert (Hlong : Nat.ltb (length before + length searchString) (length searchString)
                    = false) by (apply Nat.ltb_ge; lia).
    rewrite Hlong.
    replace (length before + length searchString - length searchString)
      with (length before) by lia.
    rewrite substring_past_prefix. apply String.eqb_refl.
Qed.

(** X20: [isDefaultAvatar] answers true exactly for a path that ends in
    [user_default.png]; a missing path, the empty path included, is not a
    default avatar. *)
Theorem isDefaultAvatar_iff_suffix (path : option string) :
  (isDefaultAvatar path = true <->
   exists before, path = Some (before ++ "user_default.png")) /\
  isDefaultAvatar None = false /\
  isDefaultAvatar (Some EmptyString) = false.
Proof.
  split; [|split; reflexivity].
  destruct path as [p|]; cbn [isDefaultAvatar].
  - rewrite endsWith_suffix. split.
    + intros (before & ->). exists before. reflexivity.
    + intros (before & Heq). inversion Heq. exists before. reflexivity.
  - split; [discriminate|]. intros (before & Heq). discriminate Heq.
Qed.

End AvatarProperties.

(** ** themeImage: what the result no longer contains *)
Section ThemeImageResult.
Import Theme.
Local Open Scope nat_scope.
Local Open Scope string_scope.

Lemma substring_in_prefix (a b : string) k n :
  k + n <= length a -> substring k n (a ++ b) = substring k n a.
Proof.
  revert k n. induction a as [|c a IH]; intros k n Hfit.
  - cbn in Hfit. assert (k = 0) by lia. assert (n = 0) by lia. subst.
    rewrite !substring_none. reflexivity.
  - destruct k as [|k].
    + destruct n as [|n]; [reflexivity|]. cbn. rewrite IH by (cbn in Hfit; lia).
      reflexivity.
    + cbn. apply IH. cbn in Hfit. lia.
Qed.

Lemma substring_in_suffix (a b : string) k n :
  length a <= k -> substring k n (a ++ b) = substring (k - length a) n b.
Proof.
  revert k. induction a as [|c a IH]; intros k Hpast.
  - cbn. rewrite Nat.sub_0_r. reflexivity.
  - destruct k as [|k]; [cbn in Hpast; lia|]. cbn. apply IH. cbn in Hpast. lia.
Qed.

Lemma lacks_get c s j : lacks c s = true -> get j s <> Some c.
Proof.
  revert j. induction s as [|d s IH]; intros j Hlacks; [destruct j; discriminate|].
  cbn in Hlacks. apply andb_true_iff in Hlacks. destruct Hlacks as [Hd Hrest].
  destruct j as [|j]; cbn.
  - intros Heq. inversion Heq; subst. rewrite Ascii.eqb_refl in Hd. discriminate Hd.
  - apply IH. exact Hrest.
Qed.

Variable theme : string.
Hypothesis no_percent : lacks "%" theme = true.
Hypothesis first_apart : starts_apart theme = true.

(** gluing two pieces without the placeholder around the theme name makes
    no placeholder *)
Lemma free_around_theme (x rest : string) :
  free_of placeholder x -> free_of placeholder rest ->
  free_of placeholder (x ++ theme ++ rest).
Proof.
  intros Hx Hrest k Hocc. unfold occurs_at in Hocc.
  assert (Hhead : get k (x ++ theme ++ rest) = Some "%"%char).
  { assert (H := substring_correct1 (x ++ theme ++ rest) k (length placeholder) 0
                   ltac:(cbn; lia)).
    rewrite Hocc in H. cbn in H. symmetry. exact H. }
  change (length placeholder) with 9 in Hocc.
  destruct (Nat.le_gt_cases (k + 9) (length x)) as [Hinside|Hreaches].
  { rewrite substring_in_prefix in Hocc by exact Hinside. exact (Hx k Hocc). }
  destruct (Nat.le_gt_cases (length x + length theme) k) as [Hbeyond|Hwithin].
  { rewrite <- append_assoc in Hocc.
    rewrite substring_in_suffix in Hocc by (rewrite length_of_append; exact Hbeyond).
    exact (Hrest _ Hocc). }
  destruct (Nat.le_gt_cases (length x) k) as [Hstarts|Hbefore].
  - assert (Hin : get (k - length x) theme = Some "%"%char).
    { rewrite (append_correct1 theme rest (k - length x)) by lia.
      rewrite (append_correct2 x (theme ++ rest) (k - length x)).
      replace (k - length x + length x) with k by lia. exact Hhead. }
    exact (lacks_get _ _ no_percent Hin).
  - destruct theme as [|c0 tail] eqn:Htheme; [discriminate first_apart|].
    assert (Hat : get (length x - k) placeholder = Some c0).
    { assert (H := substring_correct1 (x ++ String c0 tail ++ rest) k 9 (length x - k)
                     ltac:(lia)).
      rewrite Hocc in H. replace (length x - k + k) with (length x) in H by lia.
      assert (H0 := append_correct2 x (String c0 tail ++ rest) 0).
      cbn [Nat.add] in H0. rewrite H, <- H0. reflexivity. }
    destruct (length x - k) as [|j] eqn:Hj; [lia|].
    change (get (S j) placeholder) with (get j "(theme)s") in Hat.
    unfold starts_apart in first_apart. exact (lacks_get _ _ first_apart Hat).
Qed.

Lemma free_join pieces :
  Forall (free_of placeholder) pieces -> free_of placeholder (join theme pieces).
Proof.
  induction 1 as [|x rest Hx Hrest IH].
  - intros k Hocc. unfold occurs_at in Hocc. rewrite substring_of_empty in Hocc.
    discriminate Hocc.
  - destruct rest as [|y rest]; [exact Hx|].
    change (join theme (x :: y :: rest)) with (x ++ theme ++ join theme (y :: rest)).
    apply free_around_theme; assumption.
Qed.

End ThemeImageResult.

Section ThemeImageIdempotence.
Import Theme.
Local Open Scope string_scope.

(** X21: For a theme name that has no [$] and no [%] and starts with a
    character the placeholder does not continue with, as [light] and [dark]
    do, the result of [themeImage] holds no placeholder any more, and
    applying [themeImage] again changes nothing. *)
Theorem themeImage_leaves_no_placeholder root resolvedUITheme rawPath :
  dollar_free (enabledTheme root resolvedUITheme) = true ->
  lacks "%" (enabledTheme root resolvedUITheme) = true ->
  starts_apart (enabledTheme root resolvedUITheme) = true ->
  free_of placeholder (themeImage root resolvedUITheme rawPath) /\
  themeImage root resolvedUITheme (themeImage root resolvedUITheme rawPath)
    = themeImage root resolvedUITheme rawPath.
Proof.
  intros Hliteral Hpercent Hfirst.
  assert (Hfree : free_of placeholder (themeImage root resolvedUITheme rawPath)).
  { destruct (@replaceAll_pieces rawPath placeholder (enabledTheme root resolvedUITheme)
                placeholder_not_empty Hliteral) as (pieces & _ & Hresult & Hpieces).
    unfold themeImage. rewrite Hresult.
    apply free_join; assumption. }
  split; [exact Hfree|].
  unfold themeImage at 1. apply replaceAll_untouched. exact Hfree.
Qed.

End ThemeImageIdempotence.

Lemma themeImage_leaves_no_placeholder_witness :
  Theme.themeImage ThemeExamples.dark_root "light"
    (Theme.themeImage ThemeExamples.dark_root "light" ThemeExamples.icon_path)
  = Theme.themeImage ThemeExamples.dark_root "light" ThemeExamples.icon_path.
Proof.
  exact (proj2 (themeImage_leaves_no_placeholder ThemeExamples.dark_root "light"
                  ThemeExamples.icon_path eq_refl eq_refl eq_refl)).
Defined.
